(** * PMS chatbot service: a shallow embedding of [chatbot_service.py]

    The development follows the Python module top to bottom: the string and
    regular-expression primitives the module calls, the values exchanged with
    the downstream services, a small monad for calls that may raise and that
    talk to the network, and then the functions of the module under their own
    names.

    Text is modelled on the Latin-1 part of Python's [str]: a character is a
    code point below 256, held in an [ascii], and the tables below are
    Python's for that range.  [str.lower] and [str.strip] of such a text stay
    within the range.  Text with characters beyond it is not modelled: there
    [\w], [\d] and case-insensitive matching accept further characters (see
    [letters]), so what is proved of a message is proved of a message of
    Latin-1 characters. *)

From Stdlib Require Import Bool Arith NArith ZArith List Ascii String Lia.
From Stdlib Require Import DecimalString.
Import ListNotations.
Open Scope string_scope.
Set Warnings "-register-all".

(** ** Python's [str] primitives, on Latin-1 *)

Module PyStr.

Definition code (c : ascii) : N := N_of_ascii c.

Definition in_range (lo hi : N) (c : ascii) : bool :=
  ((lo <=? code c) && (code c <=? hi))%N.

(** [str.isspace], also what [strip()] removes and what [\s] matches. *)
Definition isspace (c : ascii) : bool :=
  in_range 9 13 c || in_range 28 32 c || (code c =? 133)%N || (code c =? 160)%N.

(** [\d]: the decimal digits. *)
Definition isdecimal (c : ascii) : bool := in_range 48 57 c.

Definition isasciialpha (c : ascii) : bool := in_range 65 90 c || in_range 97 122 c.

(** [str.isalnum]; beyond ASCII it holds of the Latin-1 letters, of the
    ordinal indicators, of the micro sign, and of the superscript digits and
    vulgar fractions. *)
Definition isalnum (c : ascii) : bool :=
  isdecimal c || isasciialpha c
  || (code c =? 170)%N || in_range 178 179 c || (code c =? 181)%N
  || in_range 185 186 c || in_range 188 190 c
  || in_range 192 214 c || in_range 216 246 c || in_range 248 255 c.

(** [\w]. *)
Definition isword (c : ascii) : bool := isalnum c || (code c =? 95)%N.

(** The characters [str.lower] changes: A-Z and the Latin-1 capitals. *)
Definition has_lower (c : ascii) : bool :=
  in_range 65 90 c || in_range 192 214 c || in_range 216 222 c.

Definition lower_char (c : ascii) : ascii :=
  if has_lower c then ascii_of_N (code c + 32) else c.

Fixpoint lower (s : string) : string :=
  match s with
  | EmptyString => EmptyString
  | String c s' => String (lower_char c) (lower s')
  end.

Fixpoint lstrip_by (p : ascii -> bool) (s : string) : string :=
  match s with
  | EmptyString => EmptyString
  | String c s' => if p c then lstrip_by p s' else s
  end.

Fixpoint rstrip_by (p : ascii -> bool) (s : string) : string :=
  match s with
  | EmptyString => EmptyString
  | String c s' =>
      match rstrip_by p s' with
      | EmptyString => if p c then EmptyString else String c EmptyString
      | r => String c r
      end
  end.

(** [s.strip()] *)
Definition strip (s : string) : string := rstrip_by isspace (lstrip_by isspace s).

Fixpoint mem (c : ascii) (chars : string) : bool :=
  match chars with
  | EmptyString => false
  | String d chars' => Ascii.eqb c d || mem c chars'
  end.

(** [s.rstrip(chars)] *)
Definition rstrip (chars s : string) : string := rstrip_by (fun c => mem c chars) s.

(** [sub in s] *)
Fixpoint contains (sub s : string) : bool :=
  String.prefix sub s
  || match s with
     | EmptyString => false
     | String _ s' => contains sub s'
     end.

Fixpoint take (n : nat) (s : string) : string :=
  match n, s with
  | S n', String c s' => String c (take n' s')
  | _, _ => EmptyString
  end.

Fixpoint all_chars (p : ascii -> bool) (s : string) : bool :=
  match s with
  | EmptyString => true
  | String c s' => p c && all_chars p s'
  end.

Fixpoint last (s : string) : option ascii :=
  match s with
  | EmptyString => None
  | String c EmptyString => Some c
  | String _ s' => last s'
  end.

(** [s.endswith(c)] for a one-character [c]. *)
Definition endswith (c : ascii) (s : string) : bool :=
  match last s with
  | Some d => Ascii.eqb d c
  | None => false
  end.

(** [sep.join(parts)] *)
Fixpoint join (sep : string) (parts : list string) : string :=
  match parts with
  | [] => EmptyString
  | [p] => p
  | p :: ps => p ++ sep ++ join sep ps
  end.

(** [str(n)] for an [int]. *)
Definition of_Z (n : Z) : string := NilZero.string_of_int (Z.to_int n).

End PyStr.

(** ** The fragment of Python's [re] the module uses

    A backtracking matcher in continuation-passing style, with Python's
    priorities: alternatives left to right, repetition greedy, [search]
    leftmost.  Repetition is only ever applied to a character set in the
    module's patterns, which keeps the matcher structurally recursive. *)

Module Re.

Import PyStr.

Inductive cset : Type :=
| Dot                          (* .   : anything but a newline *)
| Space                        (* \s *)
| Digit                        (* \d *)
| Range (lo hi : ascii)        (* a-z *)
| Union (a b : cset).

Fixpoint cset_mem (cs : cset) (c : ascii) : bool :=
  match cs with
  | Dot => negb (code c =? 10)%N
  | Space => isspace c
  | Digit => isdecimal c
  | Range lo hi => in_range (code lo) (code hi) c
  | Union a b => cset_mem a c || cset_mem b c
  end.

Inductive regex : Type :=
| Empty
| Lit (c : ascii)
| Set_ (cs : cset)
| Cat (r1 r2 : regex)
| Alt (r1 r2 : regex)
| Star (cs : cset)             (* greedy cs* *)
| Bound                        (* \b *)
| Group (n : nat) (r : regex). (* the n-th capturing group *)

Fixpoint seq (rs : list regex) : regex :=
  match rs with
  | [] => Empty
  | [r] => r
  | r :: rs' => Cat r (seq rs')
  end.

Fixpoint str (s : string) : regex :=
  match s with
  | EmptyString => Empty
  | String c EmptyString => Lit c
  | String c s' => Cat (Lit c) (str s')
  end.

Definition opt (r : regex) : regex := Alt r Empty.          (* r?   *)
Definition plus (cs : cset) : regex := Cat (Set_ cs) (Star cs). (* cs+  *)
Fixpoint rep (n : nat) (r : regex) : regex :=               (* r{n} *)
  match n with
  | 0 => Empty
  | 1 => r
  | S n' => Cat r (rep n' r)
  end.

(** A position in the subject: the character just before it, the text from
    it on, and the groups closed so far (latest first). *)
Record mstate : Type := MState {
  prev : option ascii;
  rest : string;
  caps : list (nat * string)
}.

Definition head (s : string) : option ascii :=
  match s with
  | EmptyString => None
  | String c _ => Some c
  end.

Definition isword_opt (c : option ascii) : bool :=
  match c with
  | None => false
  | Some c => isword c
  end.

Definition at_boundary (p : option ascii) (s : string) : bool :=
  xorb (isword_opt p) (isword_opt (head s)).

Section Matcher.

(** The [re.IGNORECASE] flag. *)
Variable icase : bool.

Definition lit_eq (p c : ascii) : bool :=
  if icase then Ascii.eqb (lower_char c) (lower_char p) else Ascii.eqb c p.

Fixpoint star_greedy (cs : cset) (k : mstate -> option mstate)
         (p : option ascii) (s : string) (g : list (nat * string)) : option mstate :=
  match s with
  | String c s' =>
      if cset_mem cs c then
        match star_greedy cs k (Some c) s' g with
        | Some m => Some m
        | None => k (MState p s g)
        end
      else k (MState p s g)
  | EmptyString => k (MState p s g)
  end.

Fixpoint run (r : regex) (st : mstate) (k : mstate -> option mstate) : option mstate :=
  match r with
  | Empty => k st
  | Lit p =>
      match rest st with
      | String c s' => if lit_eq p c then k (MState (Some c) s' (caps st)) else None
      | EmptyString => None
      end
  | Set_ cs =>
      match rest st with
      | String c s' => if cset_mem cs c then k (MState (Some c) s' (caps st)) else None
      | EmptyString => None
      end
  | Cat r1 r2 => run r1 st (fun st' => run r2 st' k)
  | Alt r1 r2 =>
      match run r1 st k with
      | Some m => Some m
      | None => run r2 st k
      end
  | Star cs => star_greedy cs k (prev st) (rest st) (caps st)
  | Bound => if at_boundary (prev st) (rest st) then k st else None
  | Group n r' =>
      run r' st (fun st' =>
        let matched := take (String.length (rest st) - String.length (rest st')) (rest st) in
        k (MState (prev st') (rest st') ((n, matched) :: caps st')))
  end.

(** The character before the position reached after [w]. *)
Definition prev_after (p : option ascii) (w : string) : option ascii :=
  match last w with
  | Some c => Some c
  | None => p
  end.

(** What it means for a pattern to match, without any order of search:
    [matches r p w t g g'] says that [r] matches the text [w], found
    after the character [p] and before the text [t], and turns the
    groups [g] into [g']. *)
Inductive matches :
  regex -> option ascii -> string -> string ->
  list (nat * string) -> list (nat * string) -> Prop :=
| MEmpty p t g : matches Empty p EmptyString t g g
| MLit c d p t g :
    lit_eq c d = true -> matches (Lit c) p (String d EmptyString) t g g
| MSet cs d p t g :
    cset_mem cs d = true -> matches (Set_ cs) p (String d EmptyString) t g g
| MCat r1 r2 p w1 w2 t g g1 g2 :
    matches r1 p w1 (w2 ++ t) g g1 ->
    matches r2 (prev_after p w1) w2 t g1 g2 ->
    matches (Cat r1 r2) p (w1 ++ w2) t g g2
| MAltL r1 r2 p w t g g' : matches r1 p w t g g' -> matches (Alt r1 r2) p w t g g'
| MAltR r1 r2 p w t g g' : matches r2 p w t g g' -> matches (Alt r1 r2) p w t g g'
| MStar cs p w t g : all_chars (cset_mem cs) w = true -> matches (Star cs) p w t g g
| MBound p t g : at_boundary p t = true -> matches Bound p EmptyString t g g
| MGroup n r p w t g g' :
    matches r p w t g g' -> matches (Group n r) p w t g ((n, w) :: g').

(** The pattern matches somewhere in [s]: at the text [w], after [pre]. *)
Definition occurs (r : regex) (s pre w : string) (g : list (nat * string)) : Prop :=
  exists post : string,
    s = pre ++ w ++ post /\ matches r (last pre) w post [] g.

(** The match object: its groups. *)
Record match_ : Type := Match { m_caps : list (nat * string) }.

Fixpoint search_at (r : regex) (p : option ascii) (s : string) : option match_ :=
  match run r (MState p s []) Some with
  | Some m => Some (Match (caps m))
  | None =>
      match s with
      | EmptyString => None
      | String c s' => search_at r (Some c) s'
      end
  end.

(** [re.search(pattern, s, flags)] *)
Definition search (r : regex) (s : string) : option match_ := search_at r None s.

End Matcher.

(** [m.group(n)]: [None] when the group took no part in the match. *)
Fixpoint lookup (n : nat) (g : list (nat * string)) : option string :=
  match g with
  | [] => None
  | (i, s) :: g' => if Nat.eqb i n then Some s else lookup n g'
  end.

Definition group (m : match_) (n : nat) : option string := lookup n (m_caps m).

End Re.

(** ** Python values

    What [resp.json()] can return and what a JSON payload can hold.  A
    [float] is kept abstract: the program only ever formats one or tests
    it for truth, so it is carried as its [repr] text and whether it is
    non-zero.  A [dict] keeps its insertion order, as Python's does. *)

Module Py.

Import PyStr.

Inductive value : Type :=
| PNone
| PBool (b : bool)
| PInt (n : Z)
| PFloat (text : string) (nonzero : bool)
| PStr (s : string)
| PList (l : list value)
| PDict (d : list (string * value)).

(** [bool(v)] *)
Definition truthy (v : value) : bool :=
  match v with
  | PNone => false
  | PBool b => b
  | PInt n => negb (n =? 0)%Z
  | PFloat _ nz => nz
  | PStr s => negb (String.eqb s EmptyString)
  | PList l => match l with [] => false | _ => true end
  | PDict d => match d with [] => false | _ => true end
  end.

(** [a or b] *)
Definition or_ (a b : value) : value := if truthy a then a else b.

(** [type(v).__name__] *)
Definition type_name (v : value) : string :=
  match v with
  | PNone => "NoneType"
  | PBool _ => "bool"
  | PInt _ => "int"
  | PFloat _ _ => "float"
  | PStr _ => "str"
  | PList _ => "list"
  | PDict _ => "dict"
  end.

Definition of_option (o : option string) : value :=
  match o with
  | None => PNone
  | Some s => PStr s
  end.

Fixpoint assoc (key : string) (d : list (string * value)) : option value :=
  match d with
  | [] => None
  | (k, v) :: d' => if String.eqb k key then Some v else assoc key d'
  end.

(** [d.get(key)] on a [dict] *)
Definition dict_get (d : list (string * value)) (key : string) : value :=
  match assoc key d with
  | Some v => v
  | None => PNone
  end.

(** [repr] of a [str]: single quotes unless the text has a single quote
    and no double quote; backslash escapes for the quote, the backslash,
    tab, newline and carriage return; [\xhh] for what is not printable. *)
Definition squote : ascii := ascii_of_N 39.
Definition dquote : ascii := ascii_of_N 34.
Definition backslash : ascii := ascii_of_N 92.

Definition isprintable (c : ascii) : bool :=
  negb (in_range 0 31 c || in_range 127 160 c || (code c =? 173)%N).

Definition hex_digit (n : N) : ascii :=
  if (n <? 10)%N then ascii_of_N (48 + n) else ascii_of_N (87 + n).

Definition escape_char (quote c : ascii) : string :=
  if Ascii.eqb c quote || Ascii.eqb c backslash then String backslash (String c EmptyString)
  else if (code c =? 9)%N then String backslash "t"
  else if (code c =? 10)%N then String backslash "n"
  else if (code c =? 13)%N then String backslash "r"
  else if isprintable c then String c EmptyString
  else String backslash
         (String "x" (String (hex_digit (code c / 16)) (String (hex_digit (code c mod 16)) EmptyString))).

Fixpoint escape (quote : ascii) (s : string) : string :=
  match s with
  | EmptyString => EmptyString
  | String c s' => escape_char quote c ++ escape quote s'
  end.

Definition repr_str (s : string) : string :=
  let quote := if mem squote s && negb (mem dquote s) then dquote else squote in
  String quote (escape quote s ++ String quote EmptyString).

Fixpoint repr (v : value) : string :=
  match v with
  | PNone => "None"
  | PBool true => "True"
  | PBool false => "False"
  | PInt n => of_Z n
  | PFloat text _ => text
  | PStr s => repr_str s
  | PList l => "[" ++ join ", " (map repr l) ++ "]"
  | PDict d => "{" ++ join ", " (map (fun kv => let '(k, x) := kv in repr_str k ++ ": " ++ repr x) d) ++ "}"
  end.

(** [str(v)], which is what an f-string field [{v}] inserts. *)
Definition str (v : value) : string :=
  match v with
  | PStr s => s
  | _ => repr v
  end.

(** An f-string field holding an [Optional[str]]. *)
Definition str_opt (o : option string) : string := str (of_option o).

(** An exception, as the module observes it: through [str(exc)]. *)
Record exn : Type := Exn { exn_class : string; exn_str : string }.

Definition AttributeError (v : value) (attr : string) : exn :=
  Exn "AttributeError"
      (String squote (type_name v ++ String squote " object has no attribute "
                      ++ String squote (attr ++ String squote EmptyString))).

Definition NameError (name : string) : exn :=
  Exn "NameError" ("name " ++ String squote (name ++ String squote " is not defined")).

End Py.

(** ** Calls that raise and that reach the network

    A computation is run against a [network], which says how the request
    issued as the [n]-th event of the run ends: the call raises (time-out,
    connection error, ...) or a response arrives.  The events issued are
    logged in order, so that what was sent can be stated. *)

Module Eff.

Import Py.

Inductive http_method : Type := GET | POST | PUT.

Record request : Type := Request {
  req_method : http_method;
  req_url : string;
  req_json : option value;
  req_headers : list (string * string);
  req_timeout : Z
}.

(** A response: its status and what [resp.json()] does, return the parsed
    body or raise. *)
Record response : Type := Response {
  status_code : Z;
  json_body : exn + value
}.

Inductive outcome : Type :=
| Raises (e : exn)
| Responds (r : response).

Inductive event : Type :=
| EvRequest (r : request)
| EvSleep (secs : Z).

Definition network : Type := nat -> request -> outcome.

Inductive result (A : Type) : Type :=
| Ok (a : A)
| Raise (e : exn).
Arguments Ok {A} a.
Arguments Raise {A} e.

Definition M (A : Type) : Type := network -> list event -> result A * list event.

Definition ret {A : Type} (a : A) : M A := fun _ log => (Ok a, log).

Definition raise {A : Type} (e : exn) : M A := fun _ log => (Raise e, log).

Definition bind {A B : Type} (m : M A) (f : A -> M B) : M B :=
  fun net log =>
    match m net log with
    | (Ok a, log') => f a net log'
    | (Raise e, log') => (Raise e, log')
    end.

(** [try: body / except Exception as exc: handler exc] *)
Definition try_except {A : Type} (body : M A) (handler : exn -> M A) : M A :=
  fun net log =>
    match body net log with
    | (Ok a, log') => (Ok a, log')
    | (Raise e, log') => handler e net log'
    end.

Definition send (r : request) : M response :=
  fun net log =>
    match net (List.length log) r with
    | Raises e => (Raise e, (log ++ [EvRequest r])%list)
    | Responds resp => (Ok resp, (log ++ [EvRequest r])%list)
    end.

(** [resp.json()] *)
Definition json (resp : response) : M value :=
  match json_body resp with
  | inl e => raise e
  | inr v => ret v
  end.

(** [time.sleep(secs)] *)
Definition sleep (secs : Z) : M unit := fun _ log => (Ok tt, (log ++ [EvSleep secs])%list).

(** [v.get(key)]: only a [dict] has the method. *)
Definition get (v : value) (key : string) : M value :=
  match v with
  | PDict d => ret (dict_get d key)
  | _ => raise (AttributeError v "get")
  end.

(** [a or b], with [b] evaluated only when [a] is falsy. *)
Definition or_else (a : M value) (b : M value) : M value :=
  bind a (fun x => if truthy x then ret x else b).

(** [a if c else b]: only the chosen branch is evaluated. *)
Definition if_else {A : Type} (a : M A) (c : bool) (b : M A) : M A := if c then a else b.

(** [for x in l: ys.append(f x)] *)
Fixpoint for_each {A B : Type} (f : A -> M B) (l : list A) : M (list B) :=
  match l with
  | [] => ret []
  | x :: l' => bind (f x) (fun y => bind (for_each f l') (fun ys => ret (y :: ys)))
  end.

(** [while True: body], unrolled [fuel] times.  The loop has no [break]:
    it ends only if the body raises; [None] says it is still going round
    when the fuel runs out. *)
Fixpoint while_true (fuel : nat) (body : M unit) : M (option unit) :=
  match fuel with
  | 0 => ret None
  | S fuel' => bind body (fun _ => while_true fuel' body)
  end.

Definition run {A : Type} (m : M A) (net : network) : result A * list event := m net [].

End Eff.

Declare Scope eff_scope.
Delimit Scope eff_scope with eff.
Notation "x <- m ;; k" := (Eff.bind m (fun x => k))
  (at level 61, m at next level, right associativity) : eff_scope.
Notation "m ;;; k" := (Eff.bind m (fun _ => k))
  (at level 61, right associativity) : eff_scope.

(** ** The module *)

Import PyStr Py Eff.
Local Open Scope eff_scope.

(** *** Configuration *)

(** [os.environ] *)
Definition environ : Type := string -> option string.

(** [os.getenv(key, default)] with a [str] default. *)
Definition getenv (env : environ) (key default : string) : string :=
  match env key with
  | Some v => v
  | None => default
  end.

(** The module's globals once it is imported.  They are assigned at import
    and never again. *)
Record globals : Type := Globals {
  SERVICE_PORT : Z;
  SERVICE_HOSTNAME : string;
  EUREKA_SERVER_URL : option string;
  EUREKA_APP_NAME : string;
  API_GATEWAY_URL : option string;
  APPOINTMENT_SERVICE_BASE_URL : option string;
  PATIENT_SERVICE_BASE_URL : option string;
  DOCTOR_SERVICE_BASE_URL : option string
}.

(** Truth of an [Optional[str]]: neither [None] nor empty. *)
Definition truthy_opt (o : option string) : bool := truthy (of_option o).

Definition _normalize_base_url (url : option string) : option string :=
  if negb (truthy_opt url) then None
  else match url with
       | Some u => Some (rstrip "/" u)
       | None => None
       end.

(** Lines 24 to 46.  [SERVICE_PORT] is [int(...)] of an environment string;
    the conversion is Python's own and the integer it yields is taken as
    given. *)
Definition module_globals (env : environ) (service_port : Z) : globals :=
  {| SERVICE_PORT := service_port;
     SERVICE_HOSTNAME := getenv env "SERVICE_HOSTNAME" (getenv env "HOSTNAME" "localhost");
     EUREKA_SERVER_URL :=
       match env "EUREKA_CLIENT_SERVICE_URL_DEFAULTZONE" with
       | Some v => Some v
       | None => env "EUREKA_SERVER_URL"
       end;
     EUREKA_APP_NAME := getenv env "EUREKA_APP_NAME" "chatbot-service";
     API_GATEWAY_URL := _normalize_base_url (env "API_GATEWAY_URL");
     APPOINTMENT_SERVICE_BASE_URL := _normalize_base_url (env "APPOINTMENT_SERVICE_BASE_URL");
     PATIENT_SERVICE_BASE_URL := _normalize_base_url (env "PATIENT_SERVICE_BASE_URL");
     DOCTOR_SERVICE_BASE_URL := _normalize_base_url (env "DOCTOR_SERVICE_BASE_URL") |}.

(** *** Intent classification *)

Definition re_book : Re.regex :=        (* \b(book|schedule)\b.*\b(appointment|appt)\b *)
  Re.seq [Re.Bound; Re.Group 1 (Re.Alt (Re.str "book") (Re.str "schedule")); Re.Bound;
          Re.Star Re.Dot;
          Re.Bound; Re.Group 2 (Re.Alt (Re.str "appointment") (Re.str "appt")); Re.Bound].

Definition re_fetch : Re.regex :=       (* \b(show|list|my)\b.*\b(appointments|appts)\b *)
  Re.seq [Re.Bound; Re.Group 1 (Re.Alt (Re.str "show") (Re.Alt (Re.str "list") (Re.str "my")));
          Re.Bound; Re.Star Re.Dot;
          Re.Bound; Re.Group 2 (Re.Alt (Re.str "appointments") (Re.str "appts")); Re.Bound].

Definition is_some {A : Type} (o : option A) : bool :=
  match o with
  | Some _ => true
  | None => false
  end.

Definition detect_intent (message : string) : string :=
  let text := lower (strip message) in
  if existsb (fun greet => contains greet text) ["hi"; "hello"; "hey"] then "greeting"
  else if is_some (Re.search false re_book text) then "book_appointment"
  else if is_some (Re.search false re_fetch text) || contains "show my appointments" text
       then "fetch_appointments"
  else "unknown".

(** *** The appointment service *)

Definition resolve_appointment_base_url (g : globals) : option string :=
  if truthy_opt (APPOINTMENT_SERVICE_BASE_URL g) then APPOINTMENT_SERVICE_BASE_URL g
  else if truthy_opt (API_GATEWAY_URL g) then Some (str_opt (API_GATEWAY_URL g) ++ "/appointments")
  else Some "http://appointment-service:8083".

(** The two booking patterns are compiled with [re.IGNORECASE].  On Latin-1
    text, which is what a [string] holds here, the flag makes a literal
    letter match both of its cases and leaves [[a-zA-Z]] at the ASCII letters
    and [\d] at the ASCII digits.  Beyond Latin-1 Python accepts more: U+0130
    and U+0131 for the letter [i], these two and U+017F and U+212A for
    [[a-zA-Z]], and any decimal digit of Unicode for [\d].  A message with
    such characters is outside what [re_doctor] and [re_date] describe. *)
Definition letters : Re.cset := Re.Union (Re.Range "a" "z") (Re.Range "A" "Z").

Definition re_doctor : Re.regex :=      (* with\s+dr\.?\s+([a-zA-Z]+) *)
  Re.seq [Re.str "with"; Re.plus Re.Space; Re.str "dr"; Re.opt (Re.Lit ".");
          Re.plus Re.Space; Re.Group 1 (Re.plus letters)].

Definition re_date : Re.regex :=        (* \b(today|tomorrow|\d{4}-\d{2}-\d{2})\b *)
  Re.seq [Re.Bound;
          Re.Group 1
            (Re.Alt (Re.str "today")
               (Re.Alt (Re.str "tomorrow")
                  (Re.seq [Re.rep 4 (Re.Set_ Re.Digit); Re.Lit "-";
                           Re.rep 2 (Re.Set_ Re.Digit); Re.Lit "-";
                           Re.rep 2 (Re.Set_ Re.Digit)])));
          Re.Bound].

(** [m.group(1) if m else None] *)
Definition group1 (m : option Re.match_) : option string :=
  match m with
  | Some m => Re.group m 1
  | None => None
  end.

Definition requests_post (url : string) (json : value) (headers : list (string * string))
           (timeout : Z) : M response :=
  send (Request POST url (Some json) headers timeout).

Definition requests_get (url : string) (timeout : Z) : M response :=
  send (Request GET url None [] timeout).

Definition requests_put (url : string) (timeout : Z) : M response :=
  send (Request PUT url None [] timeout).

Definition nl : string := String (ascii_of_N 10) EmptyString.

Definition book_appointment_via_api (g : globals) (message : string) : M value :=
  let base_url := resolve_appointment_base_url g in
  try_except
    (let doctor_match := Re.search true re_doctor message in
     let date_match := Re.search true re_date message in
     let doctor_name := group1 doctor_match in
     let date_str := group1 date_match in
     let payload := PDict [("doctorName", of_option doctor_name); ("date", of_option date_str)] in
     resp <- requests_post (str_opt base_url ++ "/book") payload [] 10 ;;
     if (status_code resp >=? 400)%Z then
       ret (PStr ("Sorry, I couldn't book the appointment right now (status "
                  ++ of_Z (status_code resp) ++ ")."))
     else
       data <- json resp ;;
       or_else (get data "message") (ret (PStr "Your appointment request has been submitted.")))
    (fun exc =>
       ret (PStr ("Sorry, something went wrong while booking the appointment: " ++ exn_str exc))).

(** The body of the [for] loop of [fetch_appointments_via_api]: one line. *)
Definition appointment_line (appt : value) : M string :=
  doctor <- or_else (get appt "doctorName") (or_else (get appt "doctor") (get appt "doctor_id")) ;;
  date <- or_else (get appt "date") (get appt "appointmentDate") ;;
  ret ("- " ++ str date ++ " with Dr. " ++ str doctor).

Definition fetch_appointments_via_api (g : globals) : M value :=
  let base_url := resolve_appointment_base_url g in
  try_except
    (resp <- requests_get (str_opt base_url) 10 ;;
     if (status_code resp >=? 400)%Z then
       ret (PStr ("Couldn't fetch appointments (status " ++ of_Z (status_code resp) ++ ")."))
     else
       data <- json resp ;;
       match data with
       | PList ((_ :: _) as l) =>
           lines <- for_each appointment_line (firstn 5 l) ;;
           ret (PStr ("Here are your upcoming appointments:" ++ nl ++ join nl lines))
       | _ => ret (PStr "You have no upcoming appointments.")
       end)
    (fun exc =>
       ret (PStr ("Sorry, something went wrong while fetching appointments: " ++ exn_str exc))).

(** *** Eureka registration and heartbeat

    [str.upper] is the one primitive that leaves Latin-1; nothing below
    depends on what it returns, so it is a parameter. *)

(** [url.rstrip('/')] on an [Optional[str]]: [None] has no such method. *)
Definition rstrip_slash (url : option string) : M string :=
  match url with
  | Some u => ret (rstrip "/" u)
  | None => raise (AttributeError PNone "rstrip")
  end.

Definition _eureka_register_instance (upper : string -> string) (env : environ) (g : globals)
  : M unit :=
  if negb (truthy_opt (EUREKA_SERVER_URL g)) then ret tt
  else
    try_except
      (let instance_id :=
         SERVICE_HOSTNAME g ++ ":" ++ EUREKA_APP_NAME g ++ ":" ++ of_Z (SERVICE_PORT g) in
       let app_name_upper := upper (EUREKA_APP_NAME g) in
       server <- rstrip_slash (EUREKA_SERVER_URL g) ;;
       let url := server ++ "/apps/" ++ app_name_upper in
       let host_port := SERVICE_HOSTNAME g ++ ":" ++ of_Z (SERVICE_PORT g) in
       let payload :=
         PDict [("instance",
           PDict [("instanceId", PStr instance_id);
                  ("hostName", PStr (SERVICE_HOSTNAME g));
                  ("app", PStr app_name_upper);
                  ("ipAddr", PStr (getenv env "POD_IP" "127.0.0.1"));
                  ("status", PStr "UP");
                  ("port", PDict [("$", PInt (SERVICE_PORT g)); ("@enabled", PBool true)]);
                  ("securePort", PDict [("$", PInt 443); ("@enabled", PBool false)]);
                  ("healthCheckUrl", PStr ("http://" ++ host_port ++ "/actuator/health"));
                  ("statusPageUrl", PStr ("http://" ++ host_port ++ "/actuator/info"));
                  ("homePageUrl", PStr ("http://" ++ host_port ++ "/"));
                  ("vipAddress", PStr (EUREKA_APP_NAME g));
                  ("dataCenterInfo",
                   PDict [("@class", PStr "com.netflix.appinfo.InstanceInfo$DefaultDataCenterInfo");
                          ("name", PStr "MyOwn")])])] in
       let headers := [("Content-Type", "application/json")] in
       resp <- requests_post url payload headers 5 ;;
       ret tt)
      (fun _ => ret tt).

(** One turn of the heartbeat's [while True]. *)
Definition heartbeat_turn (base app_name_upper instance_id : string) : M unit :=
  try_except
    (let url := base ++ "/apps/" ++ app_name_upper ++ "/" ++ instance_id in
     requests_put url 5 ;;; ret tt)
    (fun _ => ret tt) ;;;
  sleep 30.

(** [Some tt]: the function returned; [None]: it is still in its loop after
    [fuel] turns. *)
Definition _eureka_heartbeat_loop (upper : string -> string) (g : globals) (fuel : nat)
  : M (option unit) :=
  if negb (truthy_opt (EUREKA_SERVER_URL g)) then ret (Some tt)
  else
    app_name <- if_else (raise (NameError "EUREKA_APPNAME")) false (ret (EUREKA_APP_NAME g)) ;;
    let instance_id := SERVICE_HOSTNAME g ++ ":" ++ app_name ++ ":" ++ of_Z (SERVICE_PORT g) in
    let app_name_upper := upper (EUREKA_APP_NAME g) in
    base <- rstrip_slash (EUREKA_SERVER_URL g) ;;
    while_true fuel (heartbeat_turn base app_name_upper instance_id).

(** *** The chat endpoint and the health endpoints *)

(** The two pydantic models. *)
Record ChatRequest : Type := { message : string }.

Record ChatResponse : Type := { response : string }.

(** [ChatResponse(response=v)].  The field is declared [str]: a [str] is
    taken as it is.  What pydantic does with any other value (convert it,
    or raise a validation error) depends on its version, and is the
    parameter [coerce]. *)
Definition new_ChatResponse (coerce : value -> exn + string) (v : value) : M ChatResponse :=
  match v with
  | PStr s => ret {| response := s |}
  | _ =>
      match coerce v with
      | inr s => ret {| response := s |}
      | inl e => raise e
      end
  end.

Definition chat (coerce : value -> exn + string) (g : globals) (req : ChatRequest)
  : M ChatResponse :=
  let intent := detect_intent (message req) in
  if String.eqb intent "greeting" then
    new_ChatResponse coerce (PStr "Hello! How can I help you today?")
  else if String.eqb intent "book_appointment" then
    v <- book_appointment_via_api g (message req) ;; new_ChatResponse coerce v
  else if String.eqb intent "fetch_appointments" then
    v <- fetch_appointments_via_api g ;; new_ChatResponse coerce v
  else new_ChatResponse coerce (PStr "I'm not sure how to help with that yet.").

Definition health : value := PDict [("status", PStr "UP")].

Definition info (g : globals) : value :=
  PDict [("app", PStr (EUREKA_APP_NAME g)); ("version", PStr "1.0.0")].

(** The routes the decorators declare, with the function each one serves. *)
Inductive handler : Type := H_chat | H_health | H_info.

Definition routes : list (http_method * string * handler) :=
  [(POST, "/chat", H_chat); (GET, "/actuator/health", H_health);
   (GET, "/actuator/info", H_info)].

(** *** Starting the registry client

    [_start_eureka_background] starts one daemon thread for each of the two
    functions above; what is kept of it here is which threads it starts. *)
Inductive thread_target : Type := T_register_instance | T_heartbeat_loop.

Definition _start_eureka_background (g : globals) : list thread_target :=
  if negb (truthy_opt (EUREKA_SERVER_URL g)) then []
  else [T_register_instance; T_heartbeat_loop].

Definition on_startup (g : globals) : list thread_target := _start_eureka_background g.

(** ** Vocabulary of the statements *)

(** The closed set of intents. *)
Definition intents : list string :=
  ["greeting"; "book_appointment"; "fetch_appointments"; "unknown"].

(** The text [detect_intent] classifies, and its three rules. *)
Definition intent_text (message : string) : string := lower (strip message).

Definition greeting_rule (text : string) : bool :=
  existsb (fun greet => contains greet text) ["hi"; "hello"; "hey"].

Definition book_rule (text : string) : bool := is_some (Re.search false re_book text).

Definition fetch_rule (text : string) : bool :=
  is_some (Re.search false re_fetch text) || contains "show my appointments" text.

(** The request [book_appointment_via_api] sends for a message, and the one
    [fetch_appointments_via_api] sends. *)
Definition book_payload (message : string) : value :=
  PDict [("doctorName", of_option (group1 (Re.search true re_doctor message)));
         ("date", of_option (group1 (Re.search true re_date message)))].

Definition book_request (g : globals) (message : string) : request :=
  Request POST (str_opt (resolve_appointment_base_url g) ++ "/book")
          (Some (book_payload message)) [] 10.

Definition fetch_request (g : globals) : request :=
  Request GET (str_opt (resolve_appointment_base_url g)) None [] 10.

(** The replies of the two functions. *)
Definition book_failed (status : Z) : value :=
  PStr ("Sorry, I couldn't book the appointment right now (status " ++ of_Z status ++ ").").

Definition book_apology (e : exn) : value :=
  PStr ("Sorry, something went wrong while booking the appointment: " ++ exn_str e).

Definition book_submitted : value := PStr "Your appointment request has been submitted.".

Definition fetch_failed (status : Z) : value :=
  PStr ("Couldn't fetch appointments (status " ++ of_Z status ++ ").").

Definition fetch_apology (e : exn) : value :=
  PStr ("Sorry, something went wrong while fetching appointments: " ++ exn_str e).

Definition fetch_header : string := "Here are your upcoming appointments:".

Definition fetch_none : value := PStr "You have no upcoming appointments.".

(** The line [appointment_line] builds for an entry that is a JSON object. *)
Definition line_of (d : list (string * value)) : string :=
  "- " ++ str (or_ (dict_get d "date") (dict_get d "appointmentDate"))
  ++ " with Dr. "
  ++ str (or_ (dict_get d "doctorName") (or_ (dict_get d "doctor") (dict_get d "doctor_id"))).

Definition is_nonempty_list (v : value) : bool :=
  match v with
  | PList (_ :: _) => true
  | _ => false
  end.

Definition is_str (v : value) : bool :=
  match v with
  | PStr _ => true
  | _ => false
  end.

Definition is_dict (v : value) : bool :=
  match v with
  | PDict _ => true
  | _ => false
  end.

(** A configuration and some downstream behaviours to evaluate on. *)
Definition example_environ : environ :=
  fun key =>
    if String.eqb key "API_GATEWAY_URL" then Some "http://gateway:8080//"
    else if String.eqb key "EUREKA_SERVER_URL" then Some "http://eureka:8761/eureka/"
    else None.

Definition example_globals : globals := module_globals example_environ 8085.

Definition answers (status : Z) (body : value) : network :=
  fun _ _ => Responds (Response status (inr body)).

Definition unreachable : network :=
  fun _ _ => Raises (Exn "ConnectionError" "connection refused").

Definition appt (doctor date : string) : value :=
  PDict [("doctorName", PStr doctor); ("date", PStr date)].

Definition seven_appointments : value :=
  PList [appt "Lee" "2024-05-01"; appt "Kim" "2024-05-02"; appt "Roy" "2024-05-03";
         appt "Ada" "2024-05-04"; appt "Max" "2024-05-05"; appt "Eve" "2024-05-06";
         appt "Bob" "2024-05-07"].

(** *** The specification's wording, where it departs from the module

    The specification picks the first value that is not absent and says the
    [message] field is returned whenever the body has one.  These are its
    words; the module tests for truth instead (see [or_]). *)

Fixpoint spec_first_non_absent (keys : list string) (d : list (string * value)) : value :=
  match keys with
  | [] => PNone
  | k :: keys' =>
      match dict_get d k with
      | PNone => spec_first_non_absent keys' d
      | v => v
      end
  end.

Definition spec_line (d : list (string * value)) : string :=
  "- " ++ str (spec_first_non_absent ["date"; "appointmentDate"] d)
  ++ " with Dr. " ++ str (spec_first_non_absent ["doctorName"; "doctor"; "doctor_id"] d).

Definition spec_book_reply (d : list (string * value)) : value :=
  match assoc "message" d with
  | Some v => v
  | None => book_submitted
  end.

(** *** Registry vocabulary *)

(** The instance id of the registration, [<hostname>:<app-name>:<port>]. *)
Definition instance_id (g : globals) : string :=
  SERVICE_HOSTNAME g ++ ":" ++ EUREKA_APP_NAME g ++ ":" ++ of_Z (SERVICE_PORT g).

Definition server_base (g : globals) : string :=
  match EUREKA_SERVER_URL g with
  | Some u => rstrip "/" u
  | None => EmptyString
  end.

(** The renewal: a PUT on the instance's own endpoint, five seconds to answer. *)
Definition renewal (upper : string -> string) (g : globals) : request :=
  Request PUT
          (server_base g ++ "/apps/" ++ upper (EUREKA_APP_NAME g) ++ "/" ++ instance_id g)
          None [] 5.

(** [n] turns of the heartbeat: a renewal, then thirty seconds of sleep,
    [n] times over. *)
Fixpoint heartbeat_events (upper : string -> string) (g : globals) (n : nat) : list event :=
  match n with
  | 0 => []
  | S n' => EvRequest (renewal upper g) :: EvSleep 30 :: heartbeat_events upper g n'
  end.

(** [payload["instance"]["instanceId"]] *)
Definition payload_instance_id (payload : option value) : value :=
  match payload with
  | Some (PDict d) =>
      match dict_get d "instance" with
      | PDict i => dict_get i "instanceId"
      | _ => PNone
      end
  | _ => PNone
  end.

(** ASCII upper-casing, to evaluate with. *)
Definition ascii_upper_char (c : ascii) : ascii :=
  if in_range 97 122 c then ascii_of_N (code c - 32) else c.

Fixpoint ascii_upper (s : string) : string :=
  match s with
  | EmptyString => EmptyString
  | String c s' => String (ascii_upper_char c) (ascii_upper s')
  end.

(** A registry that times out on every other call and answers 500 on the
    rest. *)
Definition flaky : network :=
  fun n _ =>
    if Nat.even n then Raises (Exn "Timeout" "timed out")
    else Responds (Response 500 (inl (Exn "JSONDecodeError" "Expecting value"))).

(** *** What the two booking patterns accept, spelled out *)

(** [with\s+dr\.?\s+], case ignored. *)
Definition doctor_intro (intro : string) : Prop :=
  exists kw sp1 dr dot sp2 : string,
    intro = kw ++ sp1 ++ dr ++ dot ++ sp2
    /\ lower kw = "with" /\ lower dr = "dr" /\ (dot = EmptyString \/ dot = ".")
    /\ all_chars isspace sp1 = true /\ 0 < String.length sp1
    /\ all_chars isspace sp2 = true /\ 0 < String.length sp2.

Fixpoint shaped (ps : list (ascii -> bool)) (s : string) : bool :=
  match ps, s with
  | [], EmptyString => true
  | p :: ps', String c s' => p c && shaped ps' s'
  | _, _ => false
  end.

(** [\d{4}-\d{2}-\d{2}] *)
Definition is_iso_date (s : string) : bool :=
  shaped [isdecimal; isdecimal; isdecimal; isdecimal; Ascii.eqb "-";
          isdecimal; isdecimal; Ascii.eqb "-"; isdecimal; isdecimal] s.

(** [today|tomorrow|\d{4}-\d{2}-\d{2}], case ignored. *)
Definition date_token (d : string) : Prop :=
  lower d = "today" \/ lower d = "tomorrow" \/ is_iso_date d = true.

(** The part of [re_doctor] before its group. *)
Definition re_doctor_intro : Re.regex :=
  Re.seq [Re.str "with"; Re.plus Re.Space; Re.str "dr"; Re.opt (Re.Lit ".");
          Re.plus Re.Space].

Definition starts_with_letter (s : string) : bool :=
  match s with
  | String c _ => isasciialpha c
  | EmptyString => false
  end.

(** *** Vocabulary of the further properties *)

(** The shape the two intent patterns look for: a word of [firsts] between
    word boundaries and, further on and before any newline, a word of
    [seconds] between word boundaries. *)
Definition two_words (firsts seconds : list string) (text : string) : Prop :=
  exists pre w1 mid w2 post : string,
    text = pre ++ w1 ++ mid ++ w2 ++ post
    /\ In w1 firsts /\ In w2 seconds
    /\ Re.at_boundary (last pre) (w1 ++ mid ++ w2 ++ post) = true
    /\ Re.at_boundary (last (pre ++ w1)) (mid ++ w2 ++ post) = true
    /\ all_chars (Re.cset_mem Re.Dot) mid = true
    /\ Re.at_boundary (last (pre ++ w1 ++ mid)) (w2 ++ post) = true
    /\ Re.at_boundary (last (pre ++ w1 ++ mid ++ w2)) post = true.

(** The shape of both intent patterns. *)
Definition re_two_words (a b : Re.regex) : Re.regex :=
  Re.seq [Re.Bound; Re.Group 1 a; Re.Bound; Re.Star Re.Dot;
          Re.Bound; Re.Group 2 b; Re.Bound].

Definition greeting_reply : string := "Hello! How can I help you today?".

Definition unknown_reply : string := "I'm not sure how to help with that yet.".

(** The message holds a date token: [today], [tomorrow] (any case) or
    [dddd-dd-dd], between word boundaries. *)
Definition has_date_token (text : string) : Prop :=
  exists pre d post : string,
    text = pre ++ d ++ post /\ date_token d
    /\ Re.at_boundary (last pre) (d ++ post) = true
    /\ Re.at_boundary (last (pre ++ d)) post = true.

(** The message names a doctor: [with dr] or [with dr.] and then letters. *)
Definition names_doctor (text : string) : Prop :=
  exists pre intro name post : string,
    text = pre ++ intro ++ name ++ post /\ doctor_intro intro
    /\ 0 < String.length name /\ all_chars isasciialpha name = true.

(** A pydantic that refuses whatever is not a [str], and one that converts
    it with [str]. *)
Definition strict_str : value -> exn + string :=
  fun _ => inl (Exn "ValidationError" "Input should be a valid string").

Definition lax_str : value -> exn + string := fun v => inr (str v).

(** A configuration without a registry. *)
Definition no_registry_globals : globals := module_globals (fun _ => None) 8085.

(** *** Vocabulary of the resolver, of white space and of replies *)

(** The text is made of slashes only; the empty text is. *)
Definition only_slashes (u : string) : bool := all_chars (fun d => mem d "/") u.

(** The value of an environment variable configures no base URL: it is
    unset, or nothing is left of it once its trailing slashes are gone. *)
Definition no_base_url (o : option string) : Prop :=
  o = None \/ exists u : string, o = Some u /\ only_slashes u = true.

(** The resolver in the specification's words: a direct URL that is
    configured (set and not empty) is returned normalised, else a gateway
    URL that is configured is returned with [/appointments] appended, else
    the fall-back. *)
Definition spec_resolve (env : environ) : option string :=
  match env "APPOINTMENT_SERVICE_BASE_URL" with
  | Some (String c u) => Some (rstrip "/" (String c u))
  | _ =>
      match env "API_GATEWAY_URL" with
      | Some (String c v) => Some (rstrip "/" (String c v) ++ "/appointments")
      | _ => Some "http://appointment-service:8083"
      end
  end.

(** An environment whose direct URL is a single slash. *)
Definition slash_environ : environ :=
  fun key => if String.eqb key "APPOINTMENT_SERVICE_BASE_URL" then Some "/" else None.

(** A message with every white-space character written as a space: two
    messages with the same image differ in their white space only. *)
Fixpoint whitespace_as_space (s : string) : string :=
  match s with
  | EmptyString => EmptyString
  | String c s' => String (if isspace c then " "%char else c) (whitespace_as_space s')
  end.

(** A successful answer whose [message] is a number. *)
Definition numeric_message : value := PDict [("message", PInt 5)].

(** * Facts about the primitives *)

Module PyStrFacts.

Import PyStr.

Ltac each_char c := destruct c as [[] [] [] [] [] [] [] []]; reflexivity.

Lemma isspace_lower_char (c : ascii) : isspace (lower_char c) = isspace c.
Proof. each_char c. Qed.

Lemma lower_char_idem (c : ascii) : lower_char (lower_char c) = lower_char c.
Proof. each_char c. Qed.

Lemma lower_idem (s : string) : lower (lower s) = lower s.
Proof.
  induction s as [|c s IH]; simpl; [reflexivity|].
  now rewrite lower_char_idem, IH.
Qed.

Lemma lstrip_lower (s : string) :
  lstrip_by isspace (lower s) = lower (lstrip_by isspace s).
Proof.
  induction s as [|c s IH]; simpl; [reflexivity|].
  rewrite isspace_lower_char. destruct (isspace c); [exact IH | reflexivity].
Qed.

Lemma rstrip_lower (s : string) :
  rstrip_by isspace (lower s) = lower (rstrip_by isspace s).
Proof.
  induction s as [|c s IH]; simpl; [reflexivity|].
  rewrite IH, isspace_lower_char.
  destruct (rstrip_by isspace s); simpl; [destruct (isspace c)|]; reflexivity.
Qed.

Lemma strip_lower (s : string) : strip (lower s) = lower (strip s).
Proof. unfold strip. now rewrite lstrip_lower, rstrip_lower. Qed.

Section Strip.

Variable p : ascii -> bool.

Lemma lstrip_all (l : string) : all_chars p l = true -> lstrip_by p l = EmptyString.
Proof.
  induction l as [|c l IH]; simpl; [reflexivity|].
  intros H. apply andb_prop in H as [Hc Hl]. rewrite Hc. auto.
Qed.

Lemma rstrip_all (r : string) : all_chars p r = true -> rstrip_by p r = EmptyString.
Proof.
  induction r as [|c r IH]; simpl; [reflexivity|].
  intros H. apply andb_prop in H as [Hc Hr]. now rewrite (IH Hr), Hc.
Qed.

Lemma lstrip_app (l t : string) :
  all_chars p l = true -> lstrip_by p (l ++ t) = lstrip_by p t.
Proof.
  induction l as [|c l IH]; simpl; [reflexivity|].
  intros H. apply andb_prop in H as [Hc Hl]. rewrite Hc. auto.
Qed.

Lemma rstrip_app (t r : string) :
  all_chars p r = true -> rstrip_by p (t ++ r) = rstrip_by p t.
Proof.
  intros Hr. induction t as [|c t IH]; simpl; [now apply rstrip_all|].
  now rewrite IH.
Qed.

Lemma rstrip_lstrip_app (s r : string) :
  all_chars p r = true ->
  rstrip_by p (lstrip_by p (s ++ r)) = rstrip_by p (lstrip_by p s).
Proof.
  intros Hr. induction s as [|c s IH]; simpl.
  - now rewrite (lstrip_all r Hr).
  - destruct (p c); [exact IH|].
    change (String c (s ++ r)) with (String c s ++ r). now apply rstrip_app.
Qed.

(** [rstrip] removes a run of stripped characters from the end ... *)
Lemma rstrip_split (s : string) :
  exists t, s = rstrip_by p s ++ t /\ all_chars p t = true.
Proof.
  induction s as [|c s (t & Hs & Ht)]; simpl.
  - exists EmptyString. auto.
  - destruct (rstrip_by p s) as [|d r'] eqn:E.
    + destruct (p c) eqn:Hc.
      * exists (String c s). simpl. rewrite Hc. simpl in Hs. subst t. auto.
      * exists t. simpl in *. subst t. auto.
    + exists t. split; [|exact Ht]. simpl. now rewrite Hs at 1.
Qed.

(** ... and the whole run: what is left does not end in one. *)
Lemma rstrip_last (s : string) :
  match last (rstrip_by p s) with
  | Some c => p c = false
  | None => True
  end.
Proof.
  induction s as [|c s IH]; simpl; [exact I|].
  destruct (rstrip_by p s) as [|d r'] eqn:E.
  - destruct (p c) eqn:Hc; simpl; auto.
  - exact IH.
Qed.

Lemma rstrip_idem (s : string) : rstrip_by p (rstrip_by p s) = rstrip_by p s.
Proof.
  induction s as [|c s IH]; simpl; [reflexivity|].
  destruct (rstrip_by p s) as [|d r'] eqn:E.
  - destruct (p c) eqn:Hc; simpl; [reflexivity | now rewrite Hc].
  - change (rstrip_by p (String c (String d r')))
      with (match rstrip_by p (String d r') with
            | EmptyString => if p c then EmptyString else String c EmptyString
            | r => String c r
            end).
    now rewrite IH.
Qed.

End Strip.

Lemma strip_pad (l s r : string) :
  all_chars isspace l = true -> all_chars isspace r = true ->
  strip (l ++ s ++ r) = strip s.
Proof.
  intros Hl Hr. unfold strip.
  rewrite (lstrip_app isspace l (s ++ r) Hl).
  now apply rstrip_lstrip_app.
Qed.

Lemma rstrip_slash_endswith (u : string) : endswith "/" (rstrip "/" u) = false.
Proof.
  unfold endswith, rstrip.
  pose proof (rstrip_last (fun c => mem c "/") u) as H.
  destruct (last _) as [d|]; [|reflexivity].
  simpl in H. now rewrite orb_false_r in H.
Qed.

End PyStrFacts.

(** * Facts about the matcher *)

Module ReFacts.

Import PyStr Re.

Lemma append_assoc (a b c : string) : (a ++ b) ++ c = a ++ b ++ c.
Proof. induction a as [|x a IH]; simpl; [reflexivity | now rewrite IH]. Qed.

Lemma append_nil_r (a : string) : a ++ EmptyString = a.
Proof. induction a as [|x a IH]; simpl; [reflexivity | now rewrite IH]. Qed.

Lemma length_append (a b : string) :
  String.length (a ++ b) = String.length a + String.length b.
Proof. induction a as [|x a IH]; simpl; [reflexivity | now rewrite IH]. Qed.

Lemma take_append (w t : string) : take (String.length w) (w ++ t) = w.
Proof.
  induction w as [|c w IH]; simpl.
  - destruct t; reflexivity.
  - now rewrite IH.
Qed.

Lemma take_matched (w t : string) :
  take (String.length (w ++ t) - String.length t) (w ++ t) = w.
Proof.
  rewrite length_append.
  replace (String.length w + String.length t - String.length t) with (String.length w) by lia.
  apply take_append.
Qed.

Lemma last_cons (x : ascii) (s : string) :
  last (String x s) = match last s with Some d => Some d | None => Some x end.
Proof.
  revert x. induction s as [|y s IH]; intros x; [reflexivity|].
  change (last (String x (String y s))) with (last (String y s)).
  rewrite (IH y). now destruct (last s).
Qed.

Lemma last_append (a b : string) :
  last (a ++ b) = match last b with Some c => Some c | None => last a end.
Proof.
  induction a as [|x a IH].
  - simpl. destruct (last b); reflexivity.
  - change (String x a ++ b) with (String x (a ++ b)).
    rewrite !last_cons, IH. destruct (last b); [reflexivity|]. now destruct (last a).
Qed.

Lemma all_chars_append (p : ascii -> bool) (a b : string) :
  all_chars p (a ++ b) = all_chars p a && all_chars p b.
Proof.
  induction a as [|x a IH]; simpl; [reflexivity|].
  now rewrite IH, andb_assoc.
Qed.

Section Matcher.

Variable icase : bool.

Lemma prev_after_append (p : option ascii) (w1 w2 : string) :
  prev_after (prev_after p w1) w2 = prev_after p (w1 ++ w2).
Proof.
  unfold prev_after. rewrite last_append.
  destruct (last w2); [reflexivity|]. destruct (last w1); reflexivity.
Qed.

Lemma prev_after_cons (p : option ascii) (c : ascii) (w : string) :
  prev_after (Some c) w = prev_after p (String c w).
Proof.
  change (String c w) with (String c EmptyString ++ w).
  now rewrite <- prev_after_append.
Qed.

(** *** Whatever the matcher finds is a match *)

Lemma star_greedy_sound (cs : cset) (k : mstate -> option mstate) (s : string) :
  forall (p : option ascii) (g : list (nat * string)) (m : mstate),
    star_greedy cs k p s g = Some m ->
    exists w t : string,
      s = w ++ t /\ all_chars (cset_mem cs) w = true
      /\ k (MState (prev_after p w) t g) = Some m.
Proof.
  induction s as [|c s IH]; intros p g m H; simpl in H.
  - exists EmptyString, EmptyString. auto.
  - destruct (cset_mem cs c) eqn:Hc.
    + destruct (star_greedy cs k (Some c) s g) as [m'|] eqn:E.
      * injection H as <-. destruct (IH _ _ _ E) as (w & t & -> & Hw & Hk).
        exists (String c w), t. simpl. rewrite Hc, Hw.
        rewrite <- (prev_after_cons p). auto.
      * exists EmptyString, (String c s). auto.
    + exists EmptyString, (String c s). auto.
Qed.

Lemma run_sound (r : regex) :
  forall (p : option ascii) (s : string) (g : list (nat * string))
         (k : mstate -> option mstate) (m : mstate),
    run icase r (MState p s g) k = Some m ->
    exists (w t : string) (g' : list (nat * string)),
      s = w ++ t /\ matches icase r p w t g g'
      /\ k (MState (prev_after p w) t g') = Some m.
Proof.
  induction r as [|c|cs|r1 IH1 r2 IH2|r1 IH1 r2 IH2|cs| |n r IH];
    intros p s g k m H; simpl in H.
  - exists EmptyString, s, g. repeat split; [constructor | exact H].
  - destruct s as [|d s]; [discriminate|].
    destruct (lit_eq icase c d) eqn:E; [|discriminate].
    exists (String d EmptyString), s, g. repeat split; [now constructor | exact H].
  - destruct s as [|d s]; [discriminate|].
    destruct (cset_mem cs d) eqn:E; [|discriminate].
    exists (String d EmptyString), s, g. repeat split; [now constructor | exact H].
  - apply IH1 in H as (w1 & t1 & g1 & -> & M1 & H).
    apply IH2 in H as (w2 & t & g2 & -> & M2 & H).
    exists (w1 ++ w2), t, g2. rewrite append_assoc, <- prev_after_append.
    repeat split; [econstructor; eassumption | exact H].
  - destruct (run icase r1 (MState p s g) k) as [m1|] eqn:E.
    + injection H as <-. apply IH1 in E as (w & t & g' & -> & M1 & E).
      exists w, t, g'. repeat split; [now apply MAltL | exact E].
    + apply IH2 in H as (w & t & g' & -> & M2 & H).
      exists w, t, g'. repeat split; [now apply MAltR | exact H].
  - apply star_greedy_sound in H as (w & t & -> & Hw & H).
    exists w, t, g. repeat split; [now constructor | exact H].
  - destruct (at_boundary p s) eqn:E; [|discriminate].
    exists EmptyString, s, g. repeat split; [now constructor | exact H].
  - apply IH in H as (w & t & g' & -> & M1 & H). simpl in H.
    rewrite take_matched in H.
    exists w, t, ((n, w) :: g'). repeat split; [now constructor | exact H].
Qed.

(** *** Wherever there is a match the matcher finds one *)

Lemma star_greedy_fallback (cs : cset) (k : mstate -> option mstate)
      (p : option ascii) (s : string) (g : list (nat * string)) (m : mstate) :
  k (MState p s g) = Some m -> exists m', star_greedy cs k p s g = Some m'.
Proof.
  intros H. destruct s as [|c s]; simpl; [eauto|].
  destruct (cset_mem cs c); [|eauto].
  destruct (star_greedy cs k (Some c) s g); eauto.
Qed.

Lemma star_greedy_complete (cs : cset) (k : mstate -> option mstate) (w : string) :
  forall (p : option ascii) (t : string) (g : list (nat * string)) (m : mstate),
    all_chars (cset_mem cs) w = true ->
    k (MState (prev_after p w) t g) = Some m ->
    exists m', star_greedy cs k p (w ++ t) g = Some m'.
Proof.
  induction w as [|c w IH]; intros p t g m Hw Hk.
  - eapply star_greedy_fallback. exact Hk.
  - simpl in Hw. apply andb_prop in Hw as [Hc Hw]. simpl. rewrite Hc.
    rewrite <- (prev_after_cons p) in Hk.
    destruct (IH (Some c) t g m Hw Hk) as [m' ->]. eauto.
Qed.

Lemma run_complete (r : regex) (p : option ascii) (w t : string)
      (g g' : list (nat * string)) :
  matches icase r p w t g g' ->
  forall (k : mstate -> option mstate) (m : mstate),
    k (MState (prev_after p w) t g') = Some m ->
    exists m', run icase r (MState p (w ++ t) g) k = Some m'.
Proof.
  induction 1 as [p t g|c d p t g E|cs d p t g E
                  |r1 r2 p w1 w2 t g g1 g2 _ IH1 _ IH2
                  |r1 r2 p w t g g' _ IH|r1 r2 p w t g g' _ IH
                  |cs p w t g E|p t g E|n r p w t g g' _ IH];
    intros k m Hk; simpl.
  - eauto.
  - rewrite E. eauto.
  - rewrite E. eauto.
  - rewrite <- prev_after_append in Hk.
    destruct (IH2 k m Hk) as [m2 H2].
    rewrite append_assoc. exact (IH1 (fun st' => run icase r2 st' k) m2 H2).
  - destruct (IH k m Hk) as [m1 ->]. eauto.
  - destruct (run icase r1 (MState p (w ++ t) g) k); eauto.
  - eapply star_greedy_complete; eassumption.
  - rewrite E. eauto.
  - apply (IH _ m). simpl. now rewrite take_matched.
Qed.

(** *** [search] returns the leftmost match, and [None] only when there
    is none *)

Lemma prev_after_None (pre : string) : prev_after None pre = last pre.
Proof. unfold prev_after. now destruct (last pre). Qed.

Lemma search_at_none (r : regex) (s : string) :
  forall p : option ascii,
    search_at icase r p s = None ->
    forall (pre w post : string) (g : list (nat * string)),
      s = pre ++ w ++ post -> ~ matches icase r (prev_after p pre) w post [] g.
Proof.
  induction s as [|c s IH]; intros p H pre w post g Hs M; simpl in H.
  - destruct (run icase r (MState p EmptyString []) Some) eqn:E; [discriminate|].
    destruct pre; [|discriminate]. simpl in Hs.
    destruct (run_complete r _ _ _ _ _ M Some _ eq_refl) as [m' E'].
    rewrite <- Hs in E'. change (prev_after p EmptyString) with p in E'. congruence.
  - destruct (run icase r (MState p (String c s) []) Some) eqn:E; [discriminate|].
    destruct pre as [|d pre].
    + simpl in Hs. destruct (run_complete r _ _ _ _ _ M Some _ eq_refl) as [m' E'].
      rewrite <- Hs in E'. change (prev_after p EmptyString) with p in E'. congruence.
    + simpl in Hs. injection Hs as <- Hs.
      rewrite <- (prev_after_cons p) in M.
      exact (IH (Some c) H pre w post g Hs M).
Qed.

Lemma search_at_some (r : regex) (s : string) :
  forall (p : option ascii) (m : match_),
    search_at icase r p s = Some m ->
    exists (pre s' : string) (m0 : mstate),
      s = pre ++ s'
      /\ run icase r (MState (prev_after p pre) s' []) Some = Some m0
      /\ m = Match (caps m0)
      /\ forall (pre' w' post' : string) (g' : list (nat * string)),
           s = pre' ++ w' ++ post' ->
           matches icase r (prev_after p pre') w' post' [] g' ->
           String.length pre <= String.length pre'.
Proof.
  induction s as [|c s IH]; intros p m H; simpl in H.
  - destruct (run icase r (MState p EmptyString []) Some) as [m0|] eqn:E; [|discriminate].
    injection H as <-. exists EmptyString, EmptyString, m0.
    repeat split; auto. intros; simpl; lia.
  - destruct (run icase r (MState p (String c s) []) Some) as [m0|] eqn:E.
    + injection H as <-. exists EmptyString, (String c s), m0.
      repeat split; auto. intros; simpl; lia.
    + apply IH in H as (pre & s' & m0 & -> & R & -> & L).
      exists (String c pre), s', m0. rewrite <- (prev_after_cons p).
      repeat split; auto.
      intros pre' w' post' g' Hs M'. destruct pre' as [|d pre'].
      * simpl in Hs. destruct (run_complete r _ _ _ _ _ M' Some _ eq_refl) as [m' E'].
        rewrite <- Hs in E'. change (prev_after p EmptyString) with p in E'. congruence.
      * simpl in Hs. injection Hs as <- Hs.
        rewrite <- (prev_after_cons p) in M'.
        simpl. apply le_n_S. exact (L pre' w' post' g' Hs M').
Qed.

(** The leftmost position at which [search] found its match. *)
Lemma search_found (r : regex) (s : string) (m : match_) :
  search icase r s = Some m ->
  exists (pre s' : string) (m0 : mstate),
    s = pre ++ s'
    /\ run icase r (MState (last pre) s' []) Some = Some m0
    /\ m_caps m = caps m0
    /\ forall (pre' w' : string) (g' : list (nat * string)),
         occurs icase r s pre' w' g' -> String.length pre <= String.length pre'.
Proof.
  intros H. apply search_at_some in H as (pre & s' & m0 & Hs & R & -> & L).
  rewrite prev_after_None in R.
  exists pre, s', m0. repeat split; auto.
  intros pre' w' g' (post' & Hs' & M'). rewrite <- prev_after_None in M'.
  exact (L pre' w' post' g' Hs' M').
Qed.

Lemma search_none (r : regex) (s : string) :
  search icase r s = None ->
  forall (pre w : string) (g : list (nat * string)), ~ occurs icase r s pre w g.
Proof.
  intros H pre w g (post & Hs & M). rewrite <- prev_after_None in M.
  exact (search_at_none r s None H pre w post g Hs M).
Qed.

End Matcher.

End ReFacts.


(** * Facts about the two booking patterns *)

Module ShapeFacts.

Import PyStr Re ReFacts.

Ltac inv H := inversion H; subst; clear H.

Ltac inv_matches :=
  repeat match goal with
         | H : matches _ (Cat _ _) _ _ _ _ _ |- _ => inv H
         | H : matches _ (Alt _ _) _ _ _ _ _ |- _ => inv H
         | H : matches _ (Lit _) _ _ _ _ _ |- _ => inv H
         | H : matches _ (Set_ _) _ _ _ _ _ |- _ => inv H
         | H : matches _ (Star _) _ _ _ _ _ |- _ => inv H
         | H : matches _ (Group _ _) _ _ _ _ _ |- _ => inv H
         | H : matches _ Bound _ _ _ _ _ |- _ => inv H
         | H : matches _ Empty _ _ _ _ _ |- _ => inv H
         end.

Lemma all_chars_ext (p q : ascii -> bool) (s : string) :
  (forall c, p c = q c) -> all_chars p s = all_chars q s.
Proof. intros E. induction s as [|c s IH]; simpl; [reflexivity | now rewrite E, IH]. Qed.

Lemma letters_mem (c : ascii) : cset_mem letters c = isasciialpha c.
Proof. unfold isasciialpha. simpl. apply orb_comm. Qed.

Lemma lit_eq_lower (c d : ascii) :
  lit_eq true c d = true -> lower_char d = lower_char c.
Proof. unfold lit_eq. apply Ascii.eqb_eq. Qed.

(** Case-insensitive comparison with a character that is not a letter is
    plain comparison. *)
Lemma lower_char_nonword (c : ascii) : isword (lower_char c) = false -> lower_char c = c.
Proof.
  destruct c as [[] [] [] [] [] [] [] []]; intros H; vm_compute in H;
    try discriminate H; reflexivity.
Qed.

Lemma isword_lower_char (c : ascii) : isword (lower_char c) = isword c.
Proof. destruct c as [[] [] [] [] [] [] [] []]; reflexivity. Qed.

Lemma lower_char_inv (d c : ascii) :
  lower_char d = lower_char c -> isword c = false -> d = c.
Proof.
  intros H Hc.
  assert (Hc' : isword (lower_char c) = false) by now rewrite isword_lower_char.
  rewrite (lower_char_nonword c Hc') in H. rewrite <- H in Hc'.
  rewrite H in Hc'. rewrite <- H.
  symmetry. apply lower_char_nonword. rewrite isword_lower_char.
  rewrite <- isword_lower_char, H. exact Hc.
Qed.

Lemma plus_shape (cs : cset) (p : option ascii) (w t : string) (g g' : list (nat * string)) :
  matches true (plus cs) p w t g g' ->
  g' = g /\ 0 < String.length w /\ all_chars (cset_mem cs) w = true.
Proof.
  unfold plus. intros M. inv_matches. simpl.
  repeat split; [lia|]. now apply andb_true_intro.
Qed.

Lemma opt_lit_shape (c : ascii) (p : option ascii) (w t : string)
      (g g' : list (nat * string)) :
  matches true (opt (Lit c)) p w t g g' ->
  g' = g /\ (w = EmptyString \/ exists d, w = String d EmptyString /\ lower_char d = lower_char c).
Proof.
  unfold opt. intros M. inv_matches.
  - split; [reflexivity|]. right. eexists. split; [reflexivity|]. now apply lit_eq_lower.
  - auto.
Qed.

Lemma date_match_shape (p : option ascii) (w t : string) (g g' : list (nat * string)) :
  matches true re_date p w t g g' ->
  g' = (1, w) :: g /\ date_token w
  /\ at_boundary p (w ++ t) = true /\ at_boundary (prev_after p w) t = true.
Proof.
  intros M. unfold re_date in M. simpl in M. inv_matches;
    repeat match goal with
           | H : lit_eq true _ _ = true |- _ => apply lit_eq_lower in H
           end;
    change (prev_after p EmptyString) with p in *;
    rewrite ?append_nil_r in *;
    (repeat split; [|assumption|assumption]); unfold date_token.
  - left. simpl.
    repeat match goal with H : lower_char _ = _ |- _ => rewrite H; clear H end.
    reflexivity.
  - right; left. simpl.
    repeat match goal with H : lower_char _ = _ |- _ => rewrite H; clear H end.
    reflexivity.
  - right; right.
    repeat match goal with
           | H : lower_char _ = lower_char "-" |- _ =>
               apply lower_char_inv in H; [|reflexivity]; subst
           end.
    unfold is_iso_date. simpl shaped.
    repeat match goal with
           | H : cset_mem Digit _ = true |- _ =>
               change (cset_mem Digit) with isdecimal in H; rewrite H; clear H
           end.
    reflexivity.
Qed.

(** *** The doctor's name is the whole run of letters *)

Lemma star_greedy_longest (cs : cset) (k : mstate -> option mstate) (s : string) :
  (forall st, k st <> None) ->
  forall (p : option ascii) (g : list (nat * string)),
    exists w t : string,
      s = w ++ t /\ all_chars (cset_mem cs) w = true
      /\ match t with String c _ => cset_mem cs c | EmptyString => false end = false
      /\ star_greedy cs k p s g = k (MState (prev_after p w) t g).
Proof.
  intros Hk. induction s as [|c s IH]; intros p g.
  - exists EmptyString, EmptyString. auto.
  - simpl. destruct (cset_mem cs c) eqn:Hc.
    + destruct (IH (Some c) g) as (w & t & -> & Hw & Ht & E).
      exists (String c w), t. simpl. rewrite Hc, Hw, E, <- (prev_after_cons p).
      repeat split; auto.
      destruct (k _) eqn:K; [reflexivity | now apply Hk in K].
    + exists EmptyString, (String c s). simpl. auto.
Qed.

Lemma doctor_name_longest (p : option ascii) (s : string) (g : list (nat * string))
      (m : mstate) :
  run true (Group 1 (plus letters)) (MState p s g) Some = Some m ->
  exists name post : string,
    s = name ++ post /\ caps m = (1, name) :: g
    /\ 0 < String.length name /\ all_chars isasciialpha name = true
    /\ starts_with_letter post = false.
Proof.
  unfold plus. cbn [run rest caps prev]. destruct s as [|c s]; [discriminate|].
  destruct (cset_mem letters c) eqn:Hc; [|discriminate].
  match goal with
  | |- star_greedy _ ?k _ _ _ = _ -> _ =>
      destruct (star_greedy_longest letters k s ltac:(discriminate) (Some c) g)
        as (w & t & -> & Hw & Ht & ->)
  end.
  intros H. injection H as <-.
  exists (String c w), t. simpl caps.
  match goal with
  | |- context [take ?n (String c (w ++ t))] =>
      change (take n (String c (w ++ t)))
        with (take (String.length (String c w ++ t) - String.length t) (String c w ++ t))
  end.
  rewrite take_matched.
  repeat split; [simpl; lia | |].
  - simpl. rewrite <- letters_mem, Hc. simpl.
    now rewrite <- (all_chars_ext _ _ w letters_mem).
  - unfold starts_with_letter. destruct t as [|d t]; [reflexivity|].
    now rewrite <- letters_mem.
Qed.

Lemma doctor_intro_shape (p : option ascii) (w t : string) (g g' : list (nat * string)) :
  matches true re_doctor_intro p w t g g' -> g' = g /\ doctor_intro w.
Proof.
  intros M. unfold re_doctor_intro in M. simpl in M. inv_matches.
  repeat match goal with
         | H : matches _ (plus _) _ _ _ _ _ |- _ => apply plus_shape in H as (-> & ? & ?)
         | H : matches _ (opt _) _ _ _ _ _ |- _ => apply opt_lit_shape in H as (-> & ?)
         | H : lit_eq true _ _ = true |- _ => apply lit_eq_lower in H
         end.
  split; [reflexivity|].
  match goal with
  | |- doctor_intro (?kw ++ ?sp1 ++ ?dr ++ ?dot ++ ?sp2) =>
      exists kw, sp1, dr, dot, sp2
  end.
  repeat split; auto.
  - simpl. repeat match goal with H : lower_char _ = _ |- _ => rewrite H; clear H end.
    reflexivity.
  - simpl. repeat match goal with H : lower_char _ = _ |- _ => rewrite H; clear H end.
    reflexivity.
  - match goal with
    | H : _ \/ _ |- _ => destruct H as [->|(x & -> & Hx)]; [now left | right]
    end.
    now rewrite (lower_char_inv x "." Hx eq_refl).
Qed.

(** The doctor's name, as [book_appointment_via_api] extracts it. *)
Lemma doctor_extraction (s : string) :
  match group1 (search true re_doctor s) with
  | Some name =>
      exists pre intro post : string,
        s = pre ++ intro ++ name ++ post
        /\ doctor_intro intro
        /\ 0 < String.length name /\ all_chars isasciialpha name = true
        /\ starts_with_letter post = false
        /\ forall (pre' w' : string) (g' : list (nat * string)),
             occurs true re_doctor s pre' w' g' -> String.length pre <= String.length pre'
  | None => forall (pre w : string) (g : list (nat * string)), ~ occurs true re_doctor s pre w g
  end.
Proof.
  destruct (search true re_doctor s) as [m|] eqn:E.
  - apply search_found in E as (pre & s' & m0 & -> & R & C & L).
    change (run true re_doctor (MState (last pre) s' []) Some)
      with (run true re_doctor_intro (MState (last pre) s' [])
              (fun st' => run true (Group 1 (plus letters)) st' Some)) in R.
    apply run_sound in R as (intro & t & g' & -> & M & R).
    apply doctor_intro_shape in M as (-> & I).
    apply doctor_name_longest in R as (name & post & -> & Hc & Hn & Hl & Hp).
    unfold group1, group. rewrite C, Hc. simpl.
    exists pre, intro, post. repeat split; auto.
  - simpl. now apply search_none.
Qed.

(** The date, as [book_appointment_via_api] extracts it. *)
Lemma date_extraction (s : string) :
  match group1 (search true re_date s) with
  | Some d =>
      exists pre post : string,
        s = pre ++ d ++ post
        /\ date_token d
        /\ at_boundary (last pre) (d ++ post) = true
        /\ at_boundary (prev_after (last pre) d) post = true
        /\ forall (pre' w' : string) (g' : list (nat * string)),
             occurs true re_date s pre' w' g' -> String.length pre <= String.length pre'
  | None => forall (pre w : string) (g : list (nat * string)), ~ occurs true re_date s pre w g
  end.
Proof.
  destruct (search true re_date s) as [m|] eqn:E.
  - apply search_found in E as (pre & s' & m0 & -> & R & C & L).
    apply run_sound in R as (d & post & g' & -> & M & R).
    injection R as <-. simpl in C.
    apply date_match_shape in M as (-> & T & B1 & B2).
    unfold group1, group. rewrite C. simpl.
    exists pre, post. repeat split; auto.
  - simpl. now apply search_none.
Qed.

End ShapeFacts.

(** * Facts about the two appointment calls *)

Module ApptFacts.

Ltac run_with H :=
  unfold run, book_appointment_via_api, fetch_appointments_via_api,
    book_request, book_payload, fetch_request,
    try_except, bind, requests_post, requests_get, send in *;
  simpl List.length; rewrite H; simpl.

Ltac run_list H :=
  unfold run, fetch_appointments_via_api, fetch_request,
    try_except, bind, requests_get, send in *;
  simpl List.length; rewrite H; cbn [status_code json_body json];
  match goal with
  | |- context [(?st >=? 400)%Z] => destruct (Z.geb_spec st 400) as [?|_]; [lia|]
  end;
  unfold ret; cbv beta iota.

(** An object answers [get]; anything else raises. *)
Lemma appointment_line_dict (d : list (string * value)) (net : network) (log : list event) :
  appointment_line (PDict d) net log = (Ok (line_of d), log).
Proof.
  unfold appointment_line, line_of, or_else, or_, bind, get, ret.
  destruct (truthy (dict_get d "doctorName"));
    destruct (truthy (dict_get d "doctor"));
    destruct (truthy (dict_get d "date")); reflexivity.
Qed.

Lemma appointment_line_other (v : value) (net : network) (log : list event) :
  is_dict v = false ->
  appointment_line v net log = (Raise (AttributeError v "get"), log).
Proof. destruct v; intros H; try discriminate H; reflexivity. Qed.

Lemma for_each_dicts (ds : list (list (string * value))) (net : network) (log : list event) :
  for_each appointment_line (map PDict ds) net log = (Ok (map line_of ds), log).
Proof.
  induction ds as [|d ds IH]; simpl; [reflexivity|].
  unfold bind at 1. rewrite appointment_line_dict.
  unfold bind at 1. now rewrite IH.
Qed.

Lemma for_each_stops (ds : list (list (string * value))) (v : value) (rest : list value)
      (net : network) (log : list event) :
  is_dict v = false ->
  for_each appointment_line (map PDict ds ++ v :: rest) net log
  = (Raise (AttributeError v "get"), log).
Proof.
  intros Hv. induction ds as [|d ds IH]; simpl.
  - unfold bind at 1. now rewrite appointment_line_other.
  - unfold bind at 1. rewrite appointment_line_dict.
    unfold bind at 1. now rewrite IH.
Qed.

Lemma for_each_log (l : list value) (net : network) (log : list event) :
  snd (for_each appointment_line l net log) = log.
Proof.
  induction l as [|v l IH]; simpl; [reflexivity|].
  unfold bind at 1.
  destruct v; try reflexivity.
  rewrite appointment_line_dict. unfold bind at 1.
  destruct (for_each appointment_line l net log) as [[ys|e] log'] eqn:E; simpl in *;
    now subst.
Qed.

(** How [book_appointment_via_api] ends, by what the network does. *)
Section Book.

Variables (g : globals) (message : string) (net : network).

Lemma book_raises (e : exn) :
  net 0 (book_request g message) = Raises e ->
  run (book_appointment_via_api g message) net
  = (Ok (book_apology e), [EvRequest (book_request g message)]).
Proof. intros H. run_with H. reflexivity. Qed.

Lemma book_status_error (st : Z) (body : exn + value) :
  net 0 (book_request g message) = Responds (Response st body) ->
  (400 <= st)%Z ->
  run (book_appointment_via_api g message) net
  = (Ok (book_failed st), [EvRequest (book_request g message)]).
Proof.
  intros H Hst. run_with H.
  destruct (Z.geb_spec st 400) as [_|Hlt]; [reflexivity | lia].
Qed.

Lemma book_bad_json (st : Z) (e : exn) :
  net 0 (book_request g message) = Responds (Response st (inl e)) ->
  (st < 400)%Z ->
  run (book_appointment_via_api g message) net
  = (Ok (book_apology e), [EvRequest (book_request g message)]).
Proof.
  intros H Hst. run_with H.
  destruct (Z.geb_spec st 400) as [Hge|_]; [lia | reflexivity].
Qed.

Lemma book_object (st : Z) (d : list (string * value)) :
  net 0 (book_request g message) = Responds (Response st (inr (PDict d))) ->
  (st < 400)%Z ->
  run (book_appointment_via_api g message) net
  = (Ok (or_ (dict_get d "message") book_submitted), [EvRequest (book_request g message)]).
Proof.
  intros H Hst. run_with H.
  destruct (Z.geb_spec st 400) as [Hge|_]; [lia|].
  unfold or_else, or_, bind, get, ret. simpl.
  destruct (truthy (dict_get d "message")); reflexivity.
Qed.

Lemma book_not_object (st : Z) (v : value) :
  net 0 (book_request g message) = Responds (Response st (inr v)) ->
  (st < 400)%Z -> is_dict v = false ->
  run (book_appointment_via_api g message) net
  = (Ok (book_apology (AttributeError v "get")), [EvRequest (book_request g message)]).
Proof.
  intros H Hst Hv. run_with H.
  destruct (Z.geb_spec st 400) as [Hge|_]; [lia|].
  destruct v; try discriminate Hv; reflexivity.
Qed.

(** Whatever happens, the call returns, and it has sent its one request.
    What it returns is a string, but for the one case in which it hands
    back the [message] of the body as it found it. *)
Lemma book_returns :
  exists v : value,
    run (book_appointment_via_api g message) net
    = (Ok v, [EvRequest (book_request g message)])
    /\ (is_str v = true
        \/ exists (st : Z) (d : list (string * value)),
             net 0 (book_request g message) = Responds (Response st (inr (PDict d)))
             /\ (st < 400)%Z /\ truthy (dict_get d "message") = true
             /\ v = dict_get d "message").
Proof.
  destruct (net 0 (book_request g message)) as [e|[st [e|v]]] eqn:H.
  - eexists. split; [apply book_raises; eassumption | now left].
  - destruct (Z.le_gt_cases 400 st).
    + eexists. split; [eapply book_status_error; eauto | now left].
    + eexists. split; [apply (book_bad_json st e); auto; lia | now left].
  - destruct (Z.le_gt_cases 400 st).
    + eexists. split; [eapply book_status_error; eauto | now left].
    + destruct (is_dict v) eqn:Hv.
      * destruct v; try discriminate Hv.
        eexists. split; [apply (book_object st d); auto; lia|].
        unfold or_. destruct (truthy (dict_get d "message")) eqn:T; [right | now left].
        exists st, d. auto.
      * eexists. split; [apply (book_not_object st v); auto; lia | now left].
Qed.

End Book.

(** How [fetch_appointments_via_api] ends, by what the network does. *)
Section Fetch.

Variables (g : globals) (net : network).

Lemma fetch_raises (e : exn) :
  net 0 (fetch_request g) = Raises e ->
  run (fetch_appointments_via_api g) net
  = (Ok (fetch_apology e), [EvRequest (fetch_request g)]).
Proof. intros H. run_with H. reflexivity. Qed.

Lemma fetch_status_error (st : Z) (body : exn + value) :
  net 0 (fetch_request g) = Responds (Response st body) ->
  (400 <= st)%Z ->
  run (fetch_appointments_via_api g) net
  = (Ok (fetch_failed st), [EvRequest (fetch_request g)]).
Proof.
  intros H Hst. run_with H.
  destruct (Z.geb_spec st 400) as [_|Hlt]; [reflexivity | lia].
Qed.

Lemma fetch_bad_json (st : Z) (e : exn) :
  net 0 (fetch_request g) = Responds (Response st (inl e)) ->
  (st < 400)%Z ->
  run (fetch_appointments_via_api g) net
  = (Ok (fetch_apology e), [EvRequest (fetch_request g)]).
Proof.
  intros H Hst. run_with H.
  destruct (Z.geb_spec st 400) as [Hge|_]; [lia | reflexivity].
Qed.

Lemma fetch_not_a_list (st : Z) (v : value) :
  net 0 (fetch_request g) = Responds (Response st (inr v)) ->
  (st < 400)%Z -> is_nonempty_list v = false ->
  run (fetch_appointments_via_api g) net
  = (Ok fetch_none, [EvRequest (fetch_request g)]).
Proof.
  intros H Hst Hv. run_with H.
  destruct (Z.geb_spec st 400) as [Hge|_]; [lia|].
  destruct v as [| | | | |[|x l]|]; try discriminate Hv; reflexivity.
Qed.

Lemma fetch_objects (st : Z) (x : value) (l : list value)
      (ds : list (list (string * value))) :
  net 0 (fetch_request g) = Responds (Response st (inr (PList (x :: l)))) ->
  (st < 400)%Z -> firstn 5 (x :: l) = map PDict ds ->
  run (fetch_appointments_via_api g) net
  = (Ok (PStr (fetch_header ++ nl ++ join nl (map line_of ds))),
     [EvRequest (fetch_request g)]).
Proof.
  intros H Hst Hds. run_list H. rewrite Hds, for_each_dicts. reflexivity.
Qed.

Lemma fetch_bad_entry (st : Z) (x : value) (l : list value)
      (ds : list (list (string * value))) (v : value) (rest : list value) :
  net 0 (fetch_request g) = Responds (Response st (inr (PList (x :: l)))) ->
  (st < 400)%Z -> firstn 5 (x :: l) = (map PDict ds ++ v :: rest)%list ->
  is_dict v = false ->
  run (fetch_appointments_via_api g) net
  = (Ok (fetch_apology (AttributeError v "get")), [EvRequest (fetch_request g)]).
Proof.
  intros H Hst Hds Hv. run_list H. rewrite Hds, for_each_stops by exact Hv. reflexivity.
Qed.

(** Whatever happens, the call returns a string, and it has sent its one
    request. *)
Lemma fetch_returns :
  exists s : string,
    run (fetch_appointments_via_api g) net
    = (Ok (PStr s), [EvRequest (fetch_request g)]).
Proof.
  destruct (net 0 (fetch_request g)) as [e|[st [e|v]]] eqn:H.
  - eexists. apply fetch_raises. eassumption.
  - destruct (Z.le_gt_cases 400 st).
    + eexists. eapply fetch_status_error; eauto.
    + eexists. apply (fetch_bad_json st e); auto; lia.
  - destruct (Z.le_gt_cases 400 st).
    + eexists. eapply fetch_status_error; eauto.
    + destruct (is_nonempty_list v) eqn:Hv.
      * destruct v as [| | | | |[|x l]|]; try discriminate Hv.
        pose proof (for_each_log (firstn 5 (x :: l)) net
                      ([] ++ [EvRequest (fetch_request g)])) as L.
        run_list H.
        destruct (for_each appointment_line _ net _) as [[lines|e] log']; simpl in L;
          subst log'; eexists; reflexivity.
      * eexists. apply (fetch_not_a_list st v); auto; lia.
Qed.

End Fetch.

End ApptFacts.

(** * Facts about the heartbeat *)

Module EurekaFacts.

Section Heartbeat.

Variables (upper : string -> string) (g : globals) (net : network).

(** A turn sends its renewal and sleeps, whatever the renewal's fate. *)
Lemma heartbeat_turn_events (log : list event) :
  heartbeat_turn (server_base g) (upper (EUREKA_APP_NAME g)) (instance_id g) net log
  = (Ok tt, (log ++ [EvRequest (renewal upper g); EvSleep 30])%list).
Proof.
  unfold heartbeat_turn, try_except, bind, requests_put, send, sleep, ret.
  fold (renewal upper g).
  destruct (net (List.length log) (renewal upper g)) as [e|resp];
    now rewrite <- app_assoc.
Qed.

Lemma while_true_heartbeat (n : nat) (log : list event) :
  while_true n
    (heartbeat_turn (server_base g) (upper (EUREKA_APP_NAME g)) (instance_id g)) net log
  = (Ok None, (log ++ heartbeat_events upper g n)%list).
Proof.
  revert log. induction n as [|n IH]; intros log; simpl.
  - unfold ret. now rewrite app_nil_r.
  - unfold bind at 1. rewrite heartbeat_turn_events, IH.
    now rewrite <- app_assoc.
Qed.

Lemma heartbeat_loop_run (n : nat) :
  truthy_opt (EUREKA_SERVER_URL g) = true ->
  run (_eureka_heartbeat_loop upper g n) net = (Ok None, heartbeat_events upper g n).
Proof.
  intros Hurl. unfold run, _eureka_heartbeat_loop. rewrite Hurl. simpl negb. cbv iota.
  unfold if_else, bind at 1, ret at 1. fold (instance_id g).
  pose proof (while_true_heartbeat n []) as W. unfold server_base in W.
  destruct (EUREKA_SERVER_URL g) as [u|]; [|discriminate Hurl].
  unfold rstrip_slash, bind, ret. exact W.
Qed.

Lemma heartbeat_events_all (n : nat) (ev : event) :
  In ev (heartbeat_events upper g n) ->
  ev = EvRequest (renewal upper g) \/ ev = EvSleep 30.
Proof.
  induction n as [|n IH]; simpl; [tauto|].
  intros [H|[H|H]]; auto.
Qed.

End Heartbeat.

End EurekaFacts.

(** * The claims *)

Import PyStrFacts.

(** ** Intent classification *)

(** C6, as the code has it.  Classification of a message and of its
    lower-cased form agree; white space before and after the message does
    not matter (the module strips the message and nothing else: white space
    inside it is text); the result is always one of the four intents, and it
    is [unknown] exactly when none of the three rules applies to the
    stripped, lower-cased text. *)
Theorem detect_intent_case_and_padding (s : string) :
  detect_intent s = detect_intent (lower s)
  /\ (forall l r : string,
        all_chars isspace l = true -> all_chars isspace r = true ->
        detect_intent (l ++ s ++ r) = detect_intent s)
  /\ In (detect_intent s) intents
  /\ String.eqb (detect_intent s) "unknown"
     = negb (greeting_rule (intent_text s) || book_rule (intent_text s)
             || fetch_rule (intent_text s)).
Proof.
  repeat split.
  - unfold detect_intent. now rewrite strip_lower, lower_idem.
  - intros l r Hl Hr. unfold detect_intent. now rewrite strip_pad.
  - unfold detect_intent, intents.
    repeat match goal with |- context [if ?b then _ else _] => destruct b end;
      simpl; auto.
  - unfold detect_intent, greeting_rule, book_rule, fetch_rule, intent_text.
    destruct (existsb _ _); [reflexivity|].
    destruct (is_some (Re.search false re_book _)); [reflexivity|].
    destruct (is_some (Re.search false re_fetch _) || _); reflexivity.
Qed.

Lemma detect_intent_case_and_padding_witness :
  detect_intent (nl ++ "  Show MY Appts" ++ " ") = detect_intent "  Show MY Appts"
  /\ detect_intent "  Show MY Appts" = "fetch_appointments".
Proof.
  split; [|reflexivity].
  apply (proj1 (proj2 (detect_intent_case_and_padding "  Show MY Appts"))); reflexivity.
Defined.

(** C6 as stated fails: white space inside a message is text.  The two
    patterns let [.*] run between their words, and [.] stops at a newline,
    so a booking request whose words stand on two lines is not recognised,
    while the same words with a space between them are. *)
Lemma detect_intent_tells_newline_from_space :
  whitespace_as_space ("schedule" ++ nl ++ "appt") = whitespace_as_space "schedule appt"
  /\ detect_intent "schedule appt" = "book_appointment"
  /\ detect_intent ("schedule" ++ nl ++ "appt") = "unknown".
Proof. repeat split. Qed.

(** ** Configuration *)

(** C9.  Each of the four base URLs of the module is the environment's
    value passed once through [_normalize_base_url]; an unset or empty value
    comes out absent, and any other value comes out with its whole run of
    trailing slashes removed and nothing else changed, so that stripping it
    again would change nothing. *)
Theorem base_urls_normalized_at_startup (env : environ) (port : Z) :
  let g := module_globals env port in
  (API_GATEWAY_URL g = _normalize_base_url (env "API_GATEWAY_URL")
   /\ APPOINTMENT_SERVICE_BASE_URL g = _normalize_base_url (env "APPOINTMENT_SERVICE_BASE_URL")
   /\ PATIENT_SERVICE_BASE_URL g = _normalize_base_url (env "PATIENT_SERVICE_BASE_URL")
   /\ DOCTOR_SERVICE_BASE_URL g = _normalize_base_url (env "DOCTOR_SERVICE_BASE_URL"))
  /\ _normalize_base_url None = None
  /\ _normalize_base_url (Some EmptyString) = None
  /\ forall (c : ascii) (u : string),
       exists r slashes : string,
         _normalize_base_url (Some (String c u)) = Some r
         /\ String c u = r ++ slashes
         /\ all_chars (fun d => mem d "/") slashes = true
         /\ endswith "/" r = false
         /\ rstrip "/" r = r.
Proof.
  repeat split.
  intros c u.
  destruct (rstrip_split (fun d => mem d "/") (String c u)) as (t & Hs & Ht).
  exists (rstrip "/" (String c u)), t. repeat split.
  - exact Hs.
  - exact Ht.
  - apply rstrip_slash_endswith.
  - apply rstrip_idem.
Qed.

(** What normalisation makes of a value, by whether it holds more than
    slashes. *)
Lemma normalize_empty (u : string) :
  only_slashes u = true -> truthy_opt (_normalize_base_url (Some u)) = false.
Proof.
  intros Hu. destruct u as [|c u]; [reflexivity|].
  unfold _normalize_base_url, rstrip. cbn [truthy_opt of_option truthy negb].
  unfold only_slashes in Hu. now rewrite (rstrip_all _ _ Hu).
Qed.

Lemma normalize_kept (u : string) :
  only_slashes u = false ->
  exists (c : ascii) (r : string),
    _normalize_base_url (Some u) = Some (String c r) /\ String c r = rstrip "/" u.
Proof.
  intros Hu. destruct u as [|a u]; [discriminate Hu|].
  destruct (rstrip "/" (String a u)) as [|c r] eqn:E.
  - exfalso. destruct (rstrip_split (fun d => mem d "/") (String a u)) as (t & Hs & Ht).
    unfold rstrip in E. rewrite E in Hs. simpl in Hs. subst t.
    unfold only_slashes in Hu. congruence.
  - exists c, r. split; [|reflexivity].
    unfold _normalize_base_url. cbn [truthy_opt of_option truthy negb]. now rewrite E.
Qed.

(** C2, as the code has it.  The resolver returns the direct
    appointment-service URL of the environment, without its trailing
    slashes, when that variable holds more than slashes; else the gateway
    URL of the environment, without its trailing slashes and followed by
    [/appointments], when that variable holds more than slashes; else the
    fixed fall-back.  A variable that is unset, empty or made of slashes
    only configures nothing.  The result is never absent and never empty,
    for the globals of any environment and for any globals at all. *)
Theorem resolve_appointment_base_url_precedence
        (env : environ) (port : Z) (g0 : globals) :
  let g := module_globals env port in
  let direct := env "APPOINTMENT_SERVICE_BASE_URL" in
  let gateway := env "API_GATEWAY_URL" in
  (forall u : string,
      direct = Some u -> only_slashes u = false ->
      resolve_appointment_base_url g = Some (rstrip "/" u)
      /\ endswith "/" (rstrip "/" u) = false
      /\ exists slashes : string,
           u = rstrip "/" u ++ slashes /\ only_slashes slashes = true)
  /\ (forall v : string,
         no_base_url direct -> gateway = Some v -> only_slashes v = false ->
         resolve_appointment_base_url g = Some (rstrip "/" v ++ "/appointments"))
  /\ (no_base_url direct -> no_base_url gateway ->
      resolve_appointment_base_url g = Some "http://appointment-service:8083")
  /\ (exists s : string,
         resolve_appointment_base_url g = Some s /\ 0 < String.length s)
  /\ (exists s : string,
         resolve_appointment_base_url g0 = Some s /\ 0 < String.length s)
  /\ match APPOINTMENT_SERVICE_BASE_URL g0, API_GATEWAY_URL g0 with
     | Some (String c d), _ => resolve_appointment_base_url g0 = Some (String c d)
     | _, Some (String c w) =>
         resolve_appointment_base_url g0 = Some (String c w ++ "/appointments")
     | _, _ => resolve_appointment_base_url g0 = Some "http://appointment-service:8083"
     end.
Proof.
  intros g direct gateway.
  assert (N : forall g1 : globals,
             exists s : string,
               resolve_appointment_base_url g1 = Some s /\ 0 < String.length s).
  { intros g1. unfold resolve_appointment_base_url.
    destruct (APPOINTMENT_SERVICE_BASE_URL g1) as [[|c d]|];
      destruct (API_GATEWAY_URL g1) as [[|c' w]|]; simpl;
      eexists; (split; [reflexivity | simpl; lia]). }
  assert (D : no_base_url direct ->
              truthy_opt (APPOINTMENT_SERVICE_BASE_URL g) = false).
  { intros [E|(u & E & Hu)]; subst g; simpl; fold direct; rewrite E.
    - reflexivity.
    - now rewrite (normalize_empty u Hu). }
  split; [|split; [|split; [|split; [|split]]]].
  - intros u E Hu.
    destruct (normalize_kept u Hu) as (c & r & Hn & Hr).
    split; [|split].
    + unfold resolve_appointment_base_url. subst g. simpl. fold direct.
      now rewrite E, Hn, <- Hr.
    + apply rstrip_slash_endswith.
    + destruct (rstrip_split (fun d => mem d "/") u) as (t & Hs & Ht).
      now exists t.
  - intros v Hd E Hv.
    destruct (normalize_kept v Hv) as (c & r & Hn & Hr).
    unfold resolve_appointment_base_url. rewrite (D Hd).
    subst g. simpl. fold gateway. now rewrite E, Hn, <- Hr.
  - intros Hd Hg.
    unfold resolve_appointment_base_url. rewrite (D Hd).
    destruct Hg as [E|(v & E & Hv)]; subst g; simpl; fold gateway; rewrite E.
    + reflexivity.
    + now rewrite (normalize_empty v Hv).
  - apply N.
  - apply N.
  - unfold resolve_appointment_base_url.
    destruct (APPOINTMENT_SERVICE_BASE_URL g0) as [[|c d]|];
      destruct (API_GATEWAY_URL g0) as [[|c' w]|]; reflexivity.
Qed.

Lemma resolve_appointment_base_url_precedence_witness :
  resolve_appointment_base_url example_globals = Some "http://gateway:8080/appointments".
Proof.
  apply (proj1 (proj2 (resolve_appointment_base_url_precedence
                         example_environ 8085 example_globals))
           "http://gateway:8080//");
    [left; reflexivity | reflexivity | reflexivity].
Defined.

(** C2 as stated fails: a direct URL that is configured as a single slash
    is normalised to the empty text, and the resolver, which tests the
    normalised value for truth, passes it over and answers with the
    fall-back, not with that URL normalised. *)
Lemma resolve_passes_over_slash_url :
  slash_environ "APPOINTMENT_SERVICE_BASE_URL" = Some "/"
  /\ spec_resolve slash_environ = Some EmptyString
  /\ resolve_appointment_base_url (module_globals slash_environ 8085)
     = Some "http://appointment-service:8083"
  /\ resolve_appointment_base_url (module_globals slash_environ 8085)
     <> spec_resolve slash_environ.
Proof. repeat split. discriminate. Qed.

(** ** The appointment calls *)

Import ApptFacts.

(** X16.  Neither call ever raises: each returns, having sent its one
    request.  A status of 400 or more gives the failure message with that
    status in it; an exception, whether raised by the request itself
    (time-out, connection error), by the decoding of a body that is not JSON
    or by a body of the wrong shape, gives the apology with the exception's
    description in it.  [fetch_appointments_via_api] returns a string in
    every case, and so does [book_appointment_via_api] in every case but the
    successful one in which it hands back the body's [message]. *)
Theorem downstream_failures_become_replies
        (g : globals) (message : string) (net : network) :
  (exists v : value,
      run (book_appointment_via_api g message) net
      = (Ok v, [EvRequest (book_request g message)])
      /\ (is_str v = true
          \/ exists (st : Z) (d : list (string * value)),
               net 0 (book_request g message) = Responds (Response st (inr (PDict d)))
               /\ (st < 400)%Z /\ truthy (dict_get d "message") = true
               /\ v = dict_get d "message"))
  /\ (exists s : string,
         run (fetch_appointments_via_api g) net
         = (Ok (PStr s), [EvRequest (fetch_request g)]))
  /\ (forall e : exn,
         (net 0 (book_request g message) = Raises e ->
          fst (run (book_appointment_via_api g message) net) = Ok (book_apology e))
         /\ (net 0 (fetch_request g) = Raises e ->
             fst (run (fetch_appointments_via_api g) net) = Ok (fetch_apology e)))
  /\ (forall (st : Z) (body : exn + value),
         (400 <= st)%Z ->
         (net 0 (book_request g message) = Responds (Response st body) ->
          fst (run (book_appointment_via_api g message) net) = Ok (book_failed st))
         /\ (net 0 (fetch_request g) = Responds (Response st body) ->
             fst (run (fetch_appointments_via_api g) net) = Ok (fetch_failed st)))
  /\ (forall (st : Z) (e : exn),
         (st < 400)%Z ->
         (net 0 (book_request g message) = Responds (Response st (inl e)) ->
          fst (run (book_appointment_via_api g message) net) = Ok (book_apology e))
         /\ (net 0 (fetch_request g) = Responds (Response st (inl e)) ->
             fst (run (fetch_appointments_via_api g) net) = Ok (fetch_apology e)))
  /\ (forall (st : Z) (v : value),
         (st < 400)%Z -> is_dict v = false ->
         (net 0 (book_request g message) = Responds (Response st (inr v)) ->
          fst (run (book_appointment_via_api g message) net)
          = Ok (book_apology (AttributeError v "get")))
         /\ (forall (x : value) (l : list value) (ds : list (list (string * value)))
                    (rest : list value),
                net 0 (fetch_request g) = Responds (Response st (inr (PList (x :: l)))) ->
                firstn 5 (x :: l) = (map PDict ds ++ v :: rest)%list ->
                fst (run (fetch_appointments_via_api g) net)
                = Ok (fetch_apology (AttributeError v "get")))).
Proof.
  split; [apply book_returns|].
  split; [apply fetch_returns|].
  split; [|split; [|split]].
  - intros e. split; intros H.
    + now rewrite (book_raises g message net e H).
    + now rewrite (fetch_raises g net e H).
  - intros st body Hst. split; intros H.
    + now rewrite (book_status_error g message net st body H Hst).
    + now rewrite (fetch_status_error g net st body H Hst).
  - intros st e Hst. split; intros H.
    + now rewrite (book_bad_json g message net st e H Hst).
    + now rewrite (fetch_bad_json g net st e H Hst).
  - intros st v Hst Hv. split.
    + intros H. now rewrite (book_not_object g message net st v H Hst Hv).
    + intros x l ds rest H Hds.
      now rewrite (fetch_bad_entry g net st x l ds v rest H Hst Hds Hv).
Qed.

Lemma downstream_failures_become_replies_witness :
  fst (run (book_appointment_via_api example_globals "book an appointment") unreachable)
  = Ok (PStr "Sorry, something went wrong while booking the appointment: connection refused")
  /\ fst (run (fetch_appointments_via_api example_globals) (answers 500 PNone))
     = Ok (PStr "Couldn't fetch appointments (status 500).").
Proof.
  pose proof (downstream_failures_become_replies
                example_globals "book an appointment" unreachable) as B.
  pose proof (downstream_failures_become_replies
                example_globals "book an appointment" (answers 500 PNone)) as F.
  split.
  - apply (proj1 (proj1 (proj2 (proj2 B)) (Exn "ConnectionError" "connection refused"))).
    reflexivity.
  - apply (proj2 (proj1 (proj2 (proj2 (proj2 F))) 500%Z (inr PNone) ltac:(lia))).
    reflexivity.
Defined.

(** C4, as the code has it.  On a response below 400 whose body is a JSON
    object, the reply is the body's [message] when that value is truthy
    (present and not null, false, zero or empty), returned as it is, and the
    generic confirmation otherwise.  A 201 with the message [Booked!] gives
    exactly [Booked!]. *)
Theorem book_reply_on_success
        (g : globals) (message : string) (net : network)
        (st : Z) (d : list (string * value)) :
  net 0 (book_request g message) = Responds (Response st (inr (PDict d))) ->
  (st < 400)%Z ->
  fst (run (book_appointment_via_api g message) net)
  = Ok (if truthy (dict_get d "message") then dict_get d "message" else book_submitted)
  /\ fst (run (book_appointment_via_api g message)
              (answers 201 (PDict [("message", PStr "Booked!")])))
     = Ok (PStr "Booked!").
Proof.
  intros H Hst. split.
  - now rewrite (book_object g message net st d H Hst).
  - now rewrite (book_object g message _ 201 [("message", PStr "Booked!")] eq_refl).
Qed.

Lemma book_reply_on_success_witness :
  fst (run (book_appointment_via_api example_globals "book with dr. Lee on 2024-05-01")
           (answers 200 (PDict [("id", PInt 7)])))
  = Ok (PStr "Your appointment request has been submitted.").
Proof.
  apply (proj1 (book_reply_on_success example_globals "book with dr. Lee on 2024-05-01"
                  (answers 200 (PDict [("id", PInt 7)])) 200 [("id", PInt 7)]
                  eq_refl ltac:(lia))).
Defined.

(** C4 as stated fails: a body that has a [message] field whose value is
    the empty string is answered with the generic confirmation, not with
    the field's value. *)
Lemma book_empty_message_not_verbatim :
  let d := [("message", PStr EmptyString)] in
  assoc "message" d = Some (PStr EmptyString)
  /\ spec_book_reply d = PStr EmptyString
  /\ fst (run (book_appointment_via_api example_globals "book an appointment")
              (answers 201 (PDict d)))
     = Ok (PStr "Your appointment request has been submitted.")
  /\ fst (run (book_appointment_via_api example_globals "book an appointment")
              (answers 201 (PDict d)))
     <> Ok (spec_book_reply d).
Proof. repeat split. discriminate. Qed.

(** C3, as the code has it.  On a response below 400 whose body is a
    non-empty list, the first five entries at most are rendered, provided
    they are JSON objects: one line [- <date> with Dr. <doctor>] each, where
    the doctor is the first truthy value among [doctorName], [doctor] and
    [doctor_id] and the date the first truthy one among [date] and
    [appointmentDate] (the last key's value, or [None], when none is
    truthy), joined by newlines under the header.  An empty list and a body
    that is not a list give the no-appointments message.  Seven entries give
    the header and five lines. *)
Theorem fetch_renders_first_five
        (g : globals) (net : network) (st : Z) (body : value) :
  net 0 (fetch_request g) = Responds (Response st (inr body)) ->
  (st < 400)%Z ->
  (forall (x : value) (l : list value) (ds : list (list (string * value))),
      body = PList (x :: l) -> firstn 5 (x :: l) = map PDict ds ->
      fst (run (fetch_appointments_via_api g) net)
      = Ok (PStr (fetch_header ++ nl ++ join nl (map line_of ds)))
      /\ List.length (map line_of ds) = Nat.min 5 (List.length (x :: l))
      /\ (List.length (x :: l) = 7 -> List.length (map line_of ds) = 5))
  /\ (is_nonempty_list body = false ->
      fst (run (fetch_appointments_via_api g) net) = Ok fetch_none).
Proof.
  intros H Hst. split.
  - intros x l ds -> Hds.
    assert (Hlen : List.length (map line_of ds) = Nat.min 5 (List.length (x :: l))).
    { rewrite length_map, <- (length_map PDict ds), <- Hds. apply length_firstn. }
    split; [|split].
    + now rewrite (fetch_objects g net st x l ds H Hst Hds).
    + exact Hlen.
    + intros L. rewrite Hlen, L. reflexivity.
  - intros Hv. now rewrite (fetch_not_a_list g net st body H Hst Hv).
Qed.

Lemma fetch_renders_first_five_witness :
  fst (run (fetch_appointments_via_api example_globals) (answers 200 seven_appointments))
  = Ok (PStr (fetch_header ++ nl
              ++ "- 2024-05-01 with Dr. Lee" ++ nl ++ "- 2024-05-02 with Dr. Kim" ++ nl
              ++ "- 2024-05-03 with Dr. Roy" ++ nl ++ "- 2024-05-04 with Dr. Ada" ++ nl
              ++ "- 2024-05-05 with Dr. Max"))
  /\ fst (run (fetch_appointments_via_api example_globals) (answers 200 (PList [])))
     = Ok (PStr "You have no upcoming appointments.").
Proof.
  split.
  - refine (proj1 (proj1 (fetch_renders_first_five example_globals
                            (answers 200 seven_appointments) 200 seven_appointments
                            eq_refl ltac:(lia))
                         (appt "Lee" "2024-05-01")
                         [appt "Kim" "2024-05-02"; appt "Roy" "2024-05-03";
                          appt "Ada" "2024-05-04"; appt "Max" "2024-05-05";
                          appt "Eve" "2024-05-06"; appt "Bob" "2024-05-07"]
                         [[("doctorName", PStr "Lee"); ("date", PStr "2024-05-01")];
                          [("doctorName", PStr "Kim"); ("date", PStr "2024-05-02")];
                          [("doctorName", PStr "Roy"); ("date", PStr "2024-05-03")];
                          [("doctorName", PStr "Ada"); ("date", PStr "2024-05-04")];
                          [("doctorName", PStr "Max"); ("date", PStr "2024-05-05")]]
                         eq_refl eq_refl)).
  - apply (proj2 (fetch_renders_first_five example_globals
                    (answers 200 (PList [])) 200 (PList []) eq_refl ltac:(lia))).
    reflexivity.
Defined.

(** C3 as stated fails: for an entry whose [doctorName] is the empty string
    and whose [doctor] is [Lee], the first value that is not absent is the
    empty string, yet the line names [Lee]. *)
Lemma fetch_skips_empty_doctor_name :
  let d := [("doctorName", PStr EmptyString); ("doctor", PStr "Lee");
            ("date", PStr "2024-05-01")] in
  spec_line d = "- 2024-05-01 with Dr. "
  /\ fst (run (fetch_appointments_via_api example_globals) (answers 200 (PList [PDict d])))
     = Ok (PStr (fetch_header ++ nl ++ "- 2024-05-01 with Dr. Lee"))
  /\ fst (run (fetch_appointments_via_api example_globals) (answers 200 (PList [PDict d])))
     <> Ok (PStr (fetch_header ++ nl ++ join nl (map spec_line [d]))).
Proof. repeat split. discriminate. Qed.

(** C10.  An entry of a successful list response that is an object is
    always given its line, whichever keys it has: the reply has one line for
    each of the first five entries.  When the entry has none of the doctor
    keys the line ends in [Dr. None]; when it has none of the date keys the
    line starts with [- None]; an entry with neither gives
    [- None with Dr. None]. *)
Theorem fetch_renders_entries_without_keys
        (g : globals) (net : network) (st : Z) (x : value) (l : list value)
        (ds : list (list (string * value))) :
  net 0 (fetch_request g) = Responds (Response st (inr (PList (x :: l)))) ->
  (st < 400)%Z ->
  firstn 5 (x :: l) = map PDict ds ->
  fst (run (fetch_appointments_via_api g) net)
  = Ok (PStr (fetch_header ++ nl ++ join nl (map line_of ds)))
  /\ List.length (map line_of ds) = List.length (firstn 5 (x :: l))
  /\ (forall d : list (string * value),
         assoc "doctorName" d = None -> assoc "doctor" d = None ->
         assoc "doctor_id" d = None ->
         line_of d
         = "- " ++ str (or_ (dict_get d "date") (dict_get d "appointmentDate"))
           ++ " with Dr. None")
  /\ (forall d : list (string * value),
         assoc "date" d = None -> assoc "appointmentDate" d = None ->
         line_of d
         = "- None with Dr. "
           ++ str (or_ (dict_get d "doctorName")
                       (or_ (dict_get d "doctor") (dict_get d "doctor_id"))))
  /\ line_of [] = "- None with Dr. None".
Proof.
  intros H Hst Hds. repeat split.
  - now rewrite (fetch_objects g net st x l ds H Hst Hds).
  - now rewrite Hds, !length_map.
  - intros d H1 H2 H3. unfold line_of, dict_get. now rewrite H1, H2, H3.
  - intros d H1 H2. unfold line_of, dict_get. now rewrite H1, H2.
Qed.

Lemma fetch_renders_entries_without_keys_witness :
  fst (run (fetch_appointments_via_api example_globals)
           (answers 200 (PList [PDict []; PDict [("doctor_id", PInt 7)]])))
  = Ok (PStr (fetch_header ++ nl ++ "- None with Dr. None" ++ nl ++ "- None with Dr. 7")).
Proof.
  apply (proj1 (fetch_renders_entries_without_keys example_globals
                  (answers 200 (PList [PDict []; PDict [("doctor_id", PInt 7)]])) 200
                  (PDict []) [PDict [("doctor_id", PInt 7)]] [[]; [("doctor_id", PInt 7)]]
                  eq_refl ltac:(lia) eq_refl)).
Defined.

(** ** The registry client *)

Import EurekaFacts.

(** C7.  With a registry configured, the heartbeat loop after any number
    [n] of turns has sent exactly [n] renewals, each followed by a sleep of
    thirty seconds, and is still in its loop: it has neither returned nor
    raised.  This holds for every behaviour of the network, so a renewal
    that times out, cannot connect or is refused changes nothing in the
    turns that follow: same request, same thirty seconds, no count of
    failures. *)
Theorem heartbeat_never_stops
        (upper : string -> string) (g : globals) (net : network) (n : nat) :
  truthy_opt (EUREKA_SERVER_URL g) = true ->
  run (_eureka_heartbeat_loop upper g n) net = (Ok None, heartbeat_events upper g n)
  /\ List.length (heartbeat_events upper g n) = 2 * n
  /\ (forall k : nat,
         k < n ->
         nth_error (heartbeat_events upper g n) (2 * k) = Some (EvRequest (renewal upper g))
         /\ nth_error (heartbeat_events upper g n) (2 * k + 1) = Some (EvSleep 30))
  /\ (forall net' : network,
         run (_eureka_heartbeat_loop upper g n) net'
         = run (_eureka_heartbeat_loop upper g n) net).
Proof.
  intros Hurl. split; [|split; [|split]].
  - now apply heartbeat_loop_run.
  - induction n as [|m IH]; simpl; [reflexivity | rewrite IH; lia].
  - induction n as [|m IH]; intros k Hk; [lia|].
    destruct k as [|k].
    + split; reflexivity.
    + replace (2 * S k) with (S (S (2 * k))) by lia.
      replace (S (S (2 * k)) + 1) with (S (S (2 * k + 1))) by lia.
      simpl nth_error. apply IH. lia.
  - intros net'. now rewrite !heartbeat_loop_run.
Qed.

Lemma heartbeat_never_stops_witness :
  run (_eureka_heartbeat_loop ascii_upper example_globals 3) flaky
  = (Ok None,
     [EvRequest (renewal ascii_upper example_globals); EvSleep 30;
      EvRequest (renewal ascii_upper example_globals); EvSleep 30;
      EvRequest (renewal ascii_upper example_globals); EvSleep 30])
  /\ req_url (renewal ascii_upper example_globals)
     = "http://eureka:8761/eureka/apps/CHATBOT-SERVICE/localhost:chatbot-service:8085".
Proof.
  split; [|reflexivity].
  apply (proj1 (heartbeat_never_stops ascii_upper example_globals flaky 3 eq_refl)).
Defined.

(** C8.  The registration carries the instance id
    [<hostname>:<app-name>:<port>] in its payload, and every request of the
    heartbeat, however long it runs, is the renewal on
    [<registry>/apps/<APP>/<that same id>].  The conditional expression in
    the heartbeat's construction of the id has a condition that is false,
    so it is the app name and the name in its other branch is never
    looked up. *)
Theorem heartbeat_uses_registration_instance_id
        (upper : string -> string) (env : environ) (g : globals)
        (net_r net_h : network) (n : nat) :
  truthy_opt (EUREKA_SERVER_URL g) = true ->
  (exists (url : string) (payload : option value),
      snd (run (_eureka_register_instance upper env g) net_r)
      = [EvRequest (Request POST url payload [("Content-Type", "application/json")] 5)]
      /\ url = server_base g ++ "/apps/" ++ upper (EUREKA_APP_NAME g)
      /\ payload_instance_id payload = PStr (instance_id g))
  /\ (forall ev : event,
         In ev (snd (run (_eureka_heartbeat_loop upper g n) net_h)) ->
         ev = EvSleep 30
         \/ ev = EvRequest
                   (Request PUT
                      (server_base g ++ "/apps/" ++ upper (EUREKA_APP_NAME g)
                       ++ "/" ++ instance_id g) None [] 5))
  /\ if_else (raise (NameError "EUREKA_APPNAME")) false (ret (EUREKA_APP_NAME g))
     = ret (EUREKA_APP_NAME g)
  /\ instance_id g
     = SERVICE_HOSTNAME g ++ ":" ++ EUREKA_APP_NAME g ++ ":" ++ of_Z (SERVICE_PORT g).
Proof.
  intros Hurl. split; [|split; [|split]]; try reflexivity.
  - unfold run, _eureka_register_instance, server_base.
    destruct (EUREKA_SERVER_URL g) as [u|]; [|discriminate Hurl].
    rewrite Hurl.
    unfold negb, try_except, bind, rstrip_slash, ret, requests_post, send.
    cbv beta iota. simpl List.length.
    match goal with
    | |- context [net_r 0 ?r] => destruct (net_r 0 r)
    end; simpl; do 2 eexists; (split; [reflexivity | split; reflexivity]).
  - intros ev Hev. rewrite heartbeat_loop_run in Hev by exact Hurl. simpl in Hev.
    apply heartbeat_events_all in Hev. destruct Hev as [->| ->]; auto.
Qed.

Lemma heartbeat_uses_registration_instance_id_witness :
  payload_instance_id
    (match snd (run (_eureka_register_instance ascii_upper example_environ example_globals)
                    flaky) with
     | [EvRequest r] => req_json r
     | _ => None
     end)
  = PStr "localhost:chatbot-service:8085"
  /\ (forall ev : event,
         In ev (snd (run (_eureka_heartbeat_loop ascii_upper example_globals 2) flaky)) ->
         ev = EvSleep 30
         \/ ev = EvRequest
                   (Request PUT
                      "http://eureka:8761/eureka/apps/CHATBOT-SERVICE/localhost:chatbot-service:8085"
                      None [] 5)).
Proof.
  split; [reflexivity|].
  apply (proj1 (proj2 (heartbeat_uses_registration_instance_id
                         ascii_upper example_environ example_globals flaky flaky 2 eq_refl))).
Defined.

Import ShapeFacts.

(** * Further properties of the module *)

(** ** More facts about strings *)

Module MoreStrFacts.

Import ReFacts.

Lemma lower_append (a b : string) : lower (a ++ b) = lower a ++ lower b.
Proof. induction a as [|c a IH]; simpl; [reflexivity | now rewrite IH]. Qed.

Lemma prefix_append (a b : string) : String.prefix a (a ++ b) = true.
Proof.
  induction a as [|c a IH]; simpl.
  - destruct b; reflexivity.
  - destruct (ascii_dec c c) as [_|N]; [exact IH | now elim N].
Qed.

Lemma contains_here (sub s : string) : String.prefix sub s = true -> contains sub s = true.
Proof. intros H. destruct s; cbn [contains]; rewrite H; reflexivity. Qed.

Lemma contains_append (sub a b : string) : contains sub (a ++ sub ++ b) = true.
Proof.
  induction a as [|c a IH].
  - change (EmptyString ++ sub ++ b) with (sub ++ b). apply contains_here, prefix_append.
  - simpl. rewrite IH. apply orb_true_r.
Qed.

Lemma last_split (w : string) (d : ascii) :
  last w = Some d -> exists w0, w = w0 ++ String d EmptyString.
Proof.
  induction w as [|c w IH]; [discriminate|].
  rewrite last_cons. destruct (last w) as [e|] eqn:E.
  - intros H. injection H as ->. destruct (IH eq_refl) as [w0 ->].
    now exists (String c w0).
  - intros H. injection H as ->. destruct w as [|c' w].
    + now exists EmptyString.
    + rewrite last_cons in E. now destruct (last w).
Qed.

Section Strip.

Variable p : ascii -> bool.

Lemma lstrip_stops (a : string) (c : ascii) (x : string) :
  p c = false -> exists a', lstrip_by p (a ++ String c x) = a' ++ String c x.
Proof.
  intros Hc. induction a as [|e a [a' IH]]; simpl.
  - exists EmptyString. now rewrite Hc.
  - destruct (p e); [now exists a' | now exists (String e a)].
Qed.

Lemma rstrip_stops (y : string) (d : ascii) (z : string) :
  p d = false -> rstrip_by p (y ++ String d z) = y ++ String d (rstrip_by p z).
Proof.
  intros Hd. induction y as [|e y IH]; simpl.
  - destruct (rstrip_by p z); [now rewrite Hd | reflexivity].
  - rewrite IH. now destruct y.
Qed.

End Strip.

(** Stripping keeps whatever lies between two characters that are not
    white space. *)
Lemma strip_keeps (a w b : string) (c d : ascii) (w' : string) :
  w = String c w' -> last w = Some d -> isspace c = false -> isspace d = false ->
  exists a' b', strip (a ++ w ++ b) = a' ++ w ++ b'.
Proof.
  intros Hw Hl Hc Hd. unfold strip.
  destruct (lstrip_stops isspace a c (w' ++ b) Hc) as [a' E].
  rewrite Hw. change (String c w' ++ b) with (String c (w' ++ b)). rewrite E.
  change (String c (w' ++ b)) with (String c w' ++ b). rewrite <- Hw.
  destruct (last_split w d Hl) as [w0 ->].
  exists a', (rstrip_by isspace b).
  rewrite !append_assoc. simpl.
  rewrite <- (append_assoc a' w0). now rewrite rstrip_stops, append_assoc.
Qed.

Lemma isspace_of_lower (c l : ascii) :
  l = lower_char c -> isspace l = false -> isspace c = false.
Proof. intros ->. now rewrite PyStrFacts.isspace_lower_char. Qed.

End MoreStrFacts.

(** ** Intent classification, beyond the claims *)

Import MoreStrFacts.

(** A greeting word survives stripping and lower-casing wherever it is. *)
Lemma greeting_anywhere (a w b : string) :
  In (lower w) ["hi"; "hello"; "hey"] -> greeting_rule (intent_text (a ++ w ++ b)) = true.
Proof.
  intros Hw.
  assert (K : exists a' b', strip (a ++ w ++ b) = a' ++ w ++ b').
  { destruct Hw as [H|[H|[H|[]]]];
      destruct w as [|c1 [|c2 w]]; try discriminate H;
      simpl in H; injection H as H1 H2 H3.
    - destruct w; [|discriminate H3].
      eapply (strip_keeps a _ b c1 c2); [reflexivity | reflexivity | |];
        (eapply isspace_of_lower; [eassumption | reflexivity]).
    - destruct w as [|c3 [|c4 [|c5 [|]]]]; try discriminate H3.
      injection H3 as H3 H4 H5.
      eapply (strip_keeps a _ b c1 c5); [reflexivity | reflexivity | |];
        (eapply isspace_of_lower; [eassumption | reflexivity]).
    - destruct w as [|c3 [|]]; try discriminate H3.
      injection H3 as H3.
      eapply (strip_keeps a _ b c1 c3); [reflexivity | reflexivity | |];
        (eapply isspace_of_lower; [eassumption | reflexivity]). }
  destruct K as (a' & b' & K).
  unfold greeting_rule, intent_text. rewrite K, !lower_append.
  apply existsb_exists. exists (lower w). split; [exact Hw | apply contains_append].
Qed.

Lemma greeting_rule_decides (s : string) :
  greeting_rule (intent_text s) = true -> detect_intent s = "greeting".
Proof.
  intros G. unfold detect_intent. unfold greeting_rule, intent_text in G. now rewrite G.
Qed.


(** X1.  A message in which [hi], [hello] or [hey] occurs anywhere, in any
    case and even inside a longer word, is a greeting, whatever else it
    says. *)
Theorem greeting_wins (a w b : string) :
  In (lower w) ["hi"; "hello"; "hey"] -> detect_intent (a ++ w ++ b) = "greeting".
Proof.
  intros Hw. apply greeting_rule_decides.
  now apply greeting_anywhere.
Qed.

Lemma greeting_wins_witness :
  detect_intent ("Please book an appointment for t" ++ "HI" ++ "s week") = "greeting".
Proof. apply greeting_wins. simpl. auto. Defined.

Module IntentFacts.

Import Re ReFacts ShapeFacts.

Lemma lit_eq_exact (c d : ascii) : lit_eq false c d = true <-> d = c.
Proof. unfold lit_eq. apply Ascii.eqb_eq. Qed.

Lemma str_matches (s : string) :
  forall (p : option ascii) (w t : string) (g g' : list (nat * string)),
    matches false (str s) p w t g g' <-> w = s /\ g' = g.
Proof.
  induction s as [|c s IH]; intros p w t g g'.
  - simpl. split; [intros M; now inv M | intros [-> ->]; constructor].
  - destruct s as [|c' s].
    + simpl. split.
      * intros M. inv M.
        match goal with H : lit_eq false _ _ = true |- _ => apply lit_eq_exact in H; subst end.
        auto.
      * intros [-> ->]. constructor. now apply lit_eq_exact.
    + change (str (String c (String c' s))) with (Cat (Lit c) (str (String c' s))).
      split.
      * intros M. inv M.
        match goal with H : matches _ (Lit _) _ _ _ _ _ |- _ => inv H end.
        match goal with
        | H : matches false _ (prev_after _ _) _ _ _ _ |- _ => apply IH in H as [-> ->]
        end.
        match goal with H : lit_eq false _ _ = true |- _ => apply lit_eq_exact in H; subst end.
        auto.
      * intros [-> ->].
        change (String c (String c' s)) with (String c EmptyString ++ String c' s).
        econstructor.
        -- constructor. now apply lit_eq_exact.
        -- apply IH. auto.
Qed.

Lemma alt_matches (a b : regex) (p : option ascii) (w t : string)
      (g g' : list (nat * string)) :
  matches false (Alt a b) p w t g g'
  <-> matches false a p w t g g' \/ matches false b p w t g g'.
Proof.
  split.
  - intros M. inv M; auto.
  - intros [M|M]; [now apply MAltL | now apply MAltR].
Qed.

Lemma prev_after_nil (p : option ascii) : prev_after p EmptyString = p.
Proof. reflexivity. Qed.

Lemma prev_after_last (pre x : string) : prev_after (last pre) x = last (pre ++ x).
Proof. unfold prev_after. rewrite last_append. now destruct (last x). Qed.

Lemma search_iff (icase : bool) (r : regex) (s : string) :
  is_some (search icase r s) = true
  <-> exists (pre w : string) (g : list (nat * string)), occurs icase r s pre w g.
Proof.
  split.
  - destruct (search icase r s) as [m|] eqn:E; [intros _ | discriminate].
    apply search_found in E as (pre & s' & m0 & -> & R & _).
    apply run_sound in R as (w & t & g' & -> & M & _).
    exists pre, w, g', t. auto.
  - intros (pre & w & g & O).
    destruct (search icase r s) as [m|] eqn:E; [reflexivity|].
    exfalso. exact (search_none icase r s E pre w g O).
Qed.

(** The two intent patterns have one shape; what it accepts. *)
Lemma two_words_occurs (a b : regex) (la lb : list string) (text : string) :
  (forall p w t g g', matches false a p w t g g' <-> In w la /\ g' = g) ->
  (forall p w t g g', matches false b p w t g g' <-> In w lb /\ g' = g) ->
  (exists (pre w : string) (g : list (nat * string)),
      occurs false (re_two_words a b) text pre w g)
  <-> two_words la lb text.
Proof.
  intros Ha Hb. split.
  - intros (pre & w & g & post & -> & M).
    unfold re_two_words in M. simpl in M. inv_matches.
    repeat match goal with
           | H : matches false a _ _ _ _ _ |- _ => apply Ha in H as [? ->]
           | H : matches false b _ _ _ _ _ |- _ => apply Hb in H as [? ->]
           end.
    rewrite ?prev_after_nil in *. cbn [append] in *. rewrite ?append_nil_r in *.
    rewrite ?prev_after_append, ?prev_after_last in *. rewrite ?append_assoc in *.
    exists pre, w0, w3, w5, post. repeat split; auto.
  - intros (pre & w1 & mid & w2 & post & -> & H1 & H2 & B1 & B2 & Hm & B3 & B4).
    exists pre, (w1 ++ mid ++ w2), [(2, w2); (1, w1)], post.
    split; [now rewrite !append_assoc|].
    unfold re_two_words. simpl seq.
    replace (w1 ++ mid ++ w2)
      with (EmptyString ++ w1 ++ EmptyString ++ mid ++ EmptyString ++ w2 ++ EmptyString)
      by (cbn [append]; now rewrite append_nil_r).
    eapply MCat; [constructor|].
    { cbn [append]. now rewrite append_nil_r, !append_assoc. }
    eapply MCat; [constructor; apply Ha; split; [exact H1 | reflexivity]|].
    eapply MCat; [constructor|].
    { rewrite ?prev_after_nil. cbn [append]. rewrite ?append_nil_r.
      now rewrite prev_after_last, !append_assoc. }
    eapply MCat; [constructor; exact Hm|].
    eapply MCat; [constructor|].
    { rewrite ?prev_after_nil. cbn [append]. rewrite ?append_nil_r.
      now rewrite ?prev_after_append, prev_after_last. }
    eapply MCat; [constructor; apply Hb; split; [exact H2 | reflexivity]|].
    constructor.
    rewrite ?prev_after_nil. now rewrite ?prev_after_append, prev_after_last.
Qed.

Lemma book_words (p : option ascii) (w t : string) (g g' : list (nat * string)) :
  matches false (Alt (str "book") (str "schedule")) p w t g g'
  <-> In w ["book"; "schedule"] /\ g' = g.
Proof. rewrite alt_matches, !str_matches. simpl. intuition congruence. Qed.

Lemma appointment_words (p : option ascii) (w t : string) (g g' : list (nat * string)) :
  matches false (Alt (str "appointment") (str "appt")) p w t g g'
  <-> In w ["appointment"; "appt"] /\ g' = g.
Proof. rewrite alt_matches, !str_matches. simpl. intuition congruence. Qed.

Lemma show_words (p : option ascii) (w t : string) (g g' : list (nat * string)) :
  matches false (Alt (str "show") (Alt (str "list") (str "my"))) p w t g g'
  <-> In w ["show"; "list"; "my"] /\ g' = g.
Proof. rewrite !alt_matches, !str_matches. simpl. intuition congruence. Qed.

Lemma appointments_words (p : option ascii) (w t : string) (g g' : list (nat * string)) :
  matches false (Alt (str "appointments") (str "appts")) p w t g g'
  <-> In w ["appointments"; "appts"] /\ g' = g.
Proof. rewrite alt_matches, !str_matches. simpl. intuition congruence. Qed.

Lemma book_rule_two_words (text : string) :
  book_rule text = true <-> two_words ["book"; "schedule"] ["appointment"; "appt"] text.
Proof.
  unfold book_rule. rewrite search_iff.
  exact (two_words_occurs _ _ _ _ text book_words appointment_words).
Qed.

Lemma fetch_pattern_two_words (text : string) :
  is_some (search false re_fetch text) = true
  <-> two_words ["show"; "list"; "my"] ["appointments"; "appts"] text.
Proof.
  rewrite search_iff.
  exact (two_words_occurs _ _ _ _ text show_words appointments_words).
Qed.

End IntentFacts.

Import IntentFacts.

(** X2.  A message is a booking request exactly when its stripped,
    lower-cased text holds no greeting word and has [book] or [schedule]
    standing between word boundaries, followed on the same line (no newline
    in between) by [appointment] or [appt] between word boundaries. *)
Theorem booking_intent_exactly (s : string) :
  detect_intent s = "book_appointment"
  <-> greeting_rule (intent_text s) = false
      /\ two_words ["book"; "schedule"] ["appointment"; "appt"] (intent_text s).
Proof.
  rewrite <- book_rule_two_words.
  change (detect_intent s)
    with (if greeting_rule (intent_text s) then "greeting"
          else if book_rule (intent_text s) then "book_appointment"
          else if fetch_rule (intent_text s) then "fetch_appointments"
          else "unknown").
  destruct (greeting_rule (intent_text s)); [split; [discriminate | intros [H _]; discriminate]|].
  destruct (book_rule (intent_text s)); [split; auto|].
  destruct (fetch_rule (intent_text s)); split; try discriminate; intros [_ H]; discriminate.
Qed.

Lemma booking_intent_exactly_witness :
  detect_intent "  Schedule an APPT, please " = "book_appointment".
Proof.
  apply (proj2 (booking_intent_exactly "  Schedule an APPT, please ")).
  split; [reflexivity|].
  exists EmptyString, "schedule", " an ", "appt", ", please".
  repeat split; simpl; auto.
Defined.

(** X3.  A message asks for the list of appointments exactly when its text
    holds no greeting word, is not a booking request and either has [show],
    [list] or [my] between word boundaries followed on the same line by
    [appointments] or [appts] between word boundaries, or contains
    [show my appointments]. *)
Theorem listing_intent_exactly (s : string) :
  detect_intent s = "fetch_appointments"
  <-> greeting_rule (intent_text s) = false
      /\ ~ two_words ["book"; "schedule"] ["appointment"; "appt"] (intent_text s)
      /\ (two_words ["show"; "list"; "my"] ["appointments"; "appts"] (intent_text s)
          \/ contains "show my appointments" (intent_text s) = true).
Proof.
  rewrite <- book_rule_two_words, <- fetch_pattern_two_words.
  change (detect_intent s)
    with (if greeting_rule (intent_text s) then "greeting"
          else if book_rule (intent_text s) then "book_appointment"
          else if is_some (Re.search false re_fetch (intent_text s))
                  || contains "show my appointments" (intent_text s)
               then "fetch_appointments"
          else "unknown").
  destruct (greeting_rule (intent_text s)); [split; [discriminate | intros [H _]; discriminate]|].
  destruct (book_rule (intent_text s)).
  - split; [discriminate | intros (_ & H & _); now elim H].
  - destruct (is_some (Re.search false re_fetch (intent_text s)));
      destruct (contains "show my appointments" (intent_text s)); simpl;
        intuition (try discriminate).
Qed.

Lemma listing_intent_exactly_witness :
  detect_intent "show my appointmentsx" = "fetch_appointments"
  /\ detect_intent "book my appointments" = "fetch_appointments".
Proof.
  split.
  - apply (proj2 (listing_intent_exactly "show my appointmentsx")).
    split; [reflexivity|]. split.
    + intros H. apply book_rule_two_words in H. discriminate H.
    + right. reflexivity.
  - apply (proj2 (listing_intent_exactly "book my appointments")).
    split; [reflexivity|]. split.
    + intros H. apply book_rule_two_words in H. discriminate H.
    + left. exists "book ", "my", " ", "appointments", EmptyString.
      repeat split; simpl; auto.
Defined.

(** ** Configuration and the resolver, beyond the claims *)

Module ConfigFacts.

Import ReFacts.

Lemma endswith_append (c : ascii) (x y : string) :
  y <> EmptyString -> endswith c (x ++ y) = endswith c y.
Proof.
  intros Hy. unfold endswith. rewrite last_append.
  destruct y as [|d y]; [now elim Hy|].
  rewrite last_cons. now destruct (last y).
Qed.

Lemma normalize_no_trailing_slash (url : option string) (s : string) :
  _normalize_base_url url = Some s -> endswith "/" s = false.
Proof.
  unfold _normalize_base_url.
  destruct (negb (truthy_opt url)); [discriminate|].
  destruct url as [u|]; [|discriminate].
  intros H. injection H as <-. apply PyStrFacts.rstrip_slash_endswith.
Qed.

Lemma normalize_slashes (u : string) :
  0 < String.length u -> all_chars (fun d => mem d "/") u = true ->
  _normalize_base_url (Some u) = Some EmptyString.
Proof.
  intros Hl Hu. unfold _normalize_base_url, rstrip.
  rewrite (PyStrFacts.rstrip_all _ u Hu).
  destruct u; [simpl in Hl; lia | reflexivity].
Qed.

End ConfigFacts.

Import ConfigFacts.

(** X4.  Whatever the environment holds, the base URL resolved from the
    globals built at start-up does not end in a slash, so the booking URL
    [<base>/book] has exactly one slash at the join. *)
Theorem resolved_base_url_has_no_trailing_slash
        (env : environ) (port : Z) (msg : string) :
  exists base : string,
    resolve_appointment_base_url (module_globals env port) = Some base
    /\ endswith "/" base = false
    /\ req_url (book_request (module_globals env port) msg) = base ++ "/book"
    /\ req_url (fetch_request (module_globals env port)) = base.
Proof.
  assert (HD : forall u, APPOINTMENT_SERVICE_BASE_URL (module_globals env port) = Some u ->
                         endswith "/" u = false).
  { intros u E. simpl in E. now apply normalize_no_trailing_slash in E. }
  remember (module_globals env port) as g eqn:Hg. clear Hg.
  assert (R : exists base, resolve_appointment_base_url g = Some base
                           /\ endswith "/" base = false).
  { unfold resolve_appointment_base_url.
    destruct (truthy_opt (APPOINTMENT_SERVICE_BASE_URL g)) eqn:D.
    - destruct (APPOINTMENT_SERVICE_BASE_URL g) as [u|]; [|discriminate D].
      exists u. auto.
    - destruct (truthy_opt (API_GATEWAY_URL g)).
      + eexists. split; [reflexivity|]. now rewrite endswith_append.
      + eexists. split; reflexivity. }
  destruct R as (base & R & E). exists base.
  unfold book_request, fetch_request. simpl req_url. rewrite R. auto.
Qed.

(** X5.  A configured URL that consists of slashes only is normalised to
    the empty string, not to [None]; the resolver then passes it over as if
    it were not configured, and goes on to the gateway or the fall-back. *)
Theorem slash_only_url_is_passed_over (env : environ) (port : Z) (u : string) :
  0 < String.length u -> all_chars (fun d => mem d "/") u = true ->
  env "APPOINTMENT_SERVICE_BASE_URL" = Some u ->
  APPOINTMENT_SERVICE_BASE_URL (module_globals env port) = Some EmptyString
  /\ resolve_appointment_base_url (module_globals env port)
     = match _normalize_base_url (env "API_GATEWAY_URL") with
       | Some (String c w) => Some (String c w ++ "/appointments")
       | _ => Some "http://appointment-service:8083"
       end.
Proof.
  intros Hl Hu Hd.
  assert (E : APPOINTMENT_SERVICE_BASE_URL (module_globals env port) = Some EmptyString).
  { simpl. rewrite Hd. now apply normalize_slashes. }
  split; [exact E|].
  unfold resolve_appointment_base_url. rewrite E. simpl.
  destruct (_normalize_base_url (env "API_GATEWAY_URL")) as [[|c w]|]; reflexivity.
Qed.

Lemma slash_only_url_is_passed_over_witness :
  resolve_appointment_base_url
    (module_globals
       (fun key => if String.eqb key "APPOINTMENT_SERVICE_BASE_URL" then Some "//" else None)
       8085)
  = Some "http://appointment-service:8083".
Proof.
  apply (proj2 (slash_only_url_is_passed_over
                  (fun key => if String.eqb key "APPOINTMENT_SERVICE_BASE_URL"
                              then Some "//" else None)
                  8085 "//" ltac:(simpl; lia) eq_refl eq_refl)).
Defined.

(** ** The appointment calls, beyond the claims *)

Module MoreApptFacts.

(** Building a line never looks at the network. *)
Lemma for_each_line_any_network (l : list value) (net net' : network) (log : list event) :
  for_each appointment_line l net log = for_each appointment_line l net' log.
Proof.
  induction l as [|v l IH]; simpl; [reflexivity|].
  unfold bind at 1 3.
  destruct (is_dict v) eqn:Hv.
  - destruct v; try discriminate Hv. rewrite !appointment_line_dict.
    unfold bind. now rewrite IH.
  - now rewrite !appointment_line_other.
Qed.

Lemma fetch_list_run (g : globals) (net : network) (st : Z) (x : value) (l : list value) :
  net 0 (fetch_request g) = Responds (Response st (inr (PList (x :: l)))) ->
  (st < 400)%Z ->
  fst (run (fetch_appointments_via_api g) net)
  = match fst (for_each appointment_line (firstn 5 (x :: l)) net
                 [EvRequest (fetch_request g)]) with
    | Ok lines => Ok (PStr (fetch_header ++ nl ++ join nl lines))
    | Raise e => Ok (fetch_apology e)
    end.
Proof.
  intros H Hst. run_list H. simpl app.
  destruct (for_each appointment_line _ net _) as [[lines|e] log']; reflexivity.
Qed.

End MoreApptFacts.

Import MoreApptFacts.

(** X6.  The reply to a list response is decided by its first five entries
    alone: two non-error responses with the same status whose lists agree on
    their first five entries get the same reply, whatever follows in the
    lists, be it entries that are not objects. *)
Theorem fetch_reads_first_five_only
        (g : globals) (net net' : network) (st : Z) (l l' : list value) :
  net 0 (fetch_request g) = Responds (Response st (inr (PList l))) ->
  net' 0 (fetch_request g) = Responds (Response st (inr (PList l'))) ->
  firstn 5 l = firstn 5 l' ->
  fst (run (fetch_appointments_via_api g) net)
  = fst (run (fetch_appointments_via_api g) net').
Proof.
  intros H H' E.
  destruct (Z.le_gt_cases 400 st) as [Hst|Hst].
  - now rewrite (fetch_status_error g net st _ H Hst),
                (fetch_status_error g net' st _ H' Hst).
  - assert (Hlt : (st < 400)%Z) by lia.
    destruct l as [|x l]; destruct l' as [|x' l']; try discriminate E.
    + now rewrite (fetch_not_a_list g net st _ H Hlt eq_refl),
                  (fetch_not_a_list g net' st _ H' Hlt eq_refl).
    + rewrite (fetch_list_run g net st x l H Hlt), (fetch_list_run g net' st x' l' H' Hlt).
      now rewrite E, (for_each_line_any_network _ net net').
Qed.

Lemma fetch_reads_first_five_only_witness :
  fst (run (fetch_appointments_via_api example_globals) (answers 200 seven_appointments))
  = fst (run (fetch_appointments_via_api example_globals)
             (answers 200
                (PList [appt "Lee" "2024-05-01"; appt "Kim" "2024-05-02";
                        appt "Roy" "2024-05-03"; appt "Ada" "2024-05-04";
                        appt "Max" "2024-05-05"; PInt 6; PNone; PStr "eight"]))).
Proof.
  apply (fetch_reads_first_five_only example_globals
           (answers 200 seven_appointments) _ 200
           [appt "Lee" "2024-05-01"; appt "Kim" "2024-05-02"; appt "Roy" "2024-05-03";
            appt "Ada" "2024-05-04"; appt "Max" "2024-05-05"; appt "Eve" "2024-05-06";
            appt "Bob" "2024-05-07"]
           [appt "Lee" "2024-05-01"; appt "Kim" "2024-05-02"; appt "Roy" "2024-05-03";
            appt "Ada" "2024-05-04"; appt "Max" "2024-05-05"; PInt 6; PNone; PStr "eight"]
           eq_refl eq_refl eq_refl).
Defined.

(** ** The registry client, beyond the claims *)

Module MoreEurekaFacts.

(** With a registry configured, the registration is one POST, and the
    function returns normally whatever becomes of it. *)
Lemma register_run (upper : string -> string) (env : environ) (g : globals) :
  truthy_opt (EUREKA_SERVER_URL g) = true ->
  exists instance : list (string * value),
    (forall net : network,
        run (_eureka_register_instance upper env g) net
        = (Ok tt,
           [EvRequest
              (Request POST (server_base g ++ "/apps/" ++ upper (EUREKA_APP_NAME g))
                 (Some (PDict [("instance", PDict instance)]))
                 [("Content-Type", "application/json")] 5)]))
    /\ dict_get instance "hostName" = PStr (SERVICE_HOSTNAME g)
    /\ dict_get instance "app" = PStr (upper (EUREKA_APP_NAME g))
    /\ dict_get instance "vipAddress" = PStr (EUREKA_APP_NAME g)
    /\ dict_get instance "status" = PStr "UP"
    /\ dict_get instance "port"
       = PDict [("$", PInt (SERVICE_PORT g)); ("@enabled", PBool true)]
    /\ dict_get instance "healthCheckUrl"
       = PStr ("http://" ++ (SERVICE_HOSTNAME g ++ ":" ++ of_Z (SERVICE_PORT g))
               ++ "/actuator/health")
    /\ dict_get instance "statusPageUrl"
       = PStr ("http://" ++ (SERVICE_HOSTNAME g ++ ":" ++ of_Z (SERVICE_PORT g))
               ++ "/actuator/info").
Proof.
  intros Hurl. unfold run, _eureka_register_instance, server_base.
  destruct (EUREKA_SERVER_URL g) as [u|]; [|discriminate Hurl].
  rewrite Hurl.
  unfold negb, try_except, bind, rstrip_slash, ret, requests_post, send.
  cbv beta iota. simpl List.length.
  eexists. split.
  - intros net.
    match goal with
    | |- context [net 0 ?r] => destruct (net 0 r)
    end; reflexivity.
  - repeat split.
Qed.

End MoreEurekaFacts.

Import MoreEurekaFacts.

(** X7.  With a registry configured, the registration returns normally
    whatever the registry does (time-out, refusal, error status).  It has
    sent one request, the same whatever the outcome: a POST of a JSON body,
    with the JSON content type and five seconds to answer, to
    [<registry>/apps/<APP NAME>], where [<registry>] is the configured
    registry URL without its trailing slashes and the name is the
    application's in upper case. *)
Theorem registration_is_best_effort
        (upper : string -> string) (env : environ) (g : globals) (net : network) :
  truthy_opt (EUREKA_SERVER_URL g) = true ->
  exists (instance : list (string * value)) (slashes : string),
    run (_eureka_register_instance upper env g) net
    = (Ok tt,
       [EvRequest
          (Request POST (server_base g ++ "/apps/" ++ upper (EUREKA_APP_NAME g))
             (Some (PDict [("instance", PDict instance)]))
             [("Content-Type", "application/json")] 5)])
    /\ (forall net' : network,
           run (_eureka_register_instance upper env g) net'
           = run (_eureka_register_instance upper env g) net)
    /\ EUREKA_SERVER_URL g = Some (server_base g ++ slashes)
    /\ only_slashes slashes = true
    /\ endswith "/" (server_base g) = false.
Proof.
  intros Hurl.
  destruct (register_run upper env g Hurl) as (i & R & _).
  unfold server_base in *.
  destruct (EUREKA_SERVER_URL g) as [u|]; [|discriminate Hurl].
  destruct (PyStrFacts.rstrip_split (fun d => mem d "/") u) as (t & Hs & Ht).
  exists i, t. split; [apply R|]. split; [|split; [|split]].
  - intros net'. now rewrite !R.
  - unfold rstrip. now rewrite <- Hs.
  - exact Ht.
  - apply PyStrFacts.rstrip_slash_endswith.
Qed.

Lemma registration_is_best_effort_witness :
  exists (instance : list (string * value)) (slashes : string),
    run (_eureka_register_instance ascii_upper example_environ example_globals) flaky
    = (Ok tt,
       [EvRequest
          (Request POST "http://eureka:8761/eureka/apps/CHATBOT-SERVICE"
             (Some (PDict [("instance", PDict instance)]))
             [("Content-Type", "application/json")] 5)])
    /\ (forall net' : network,
           run (_eureka_register_instance ascii_upper example_environ example_globals) net'
           = run (_eureka_register_instance ascii_upper example_environ example_globals) flaky)
    /\ EUREKA_SERVER_URL example_globals = Some ("http://eureka:8761/eureka" ++ slashes)
    /\ only_slashes slashes = true
    /\ endswith "/" "http://eureka:8761/eureka" = false.
Proof.
  exact (registration_is_best_effort ascii_upper example_environ example_globals
           flaky eq_refl).
Defined.

(** X8.  Without a registry URL (unset or empty) the client does nothing at
    all: no thread is started, the registration sends nothing and the
    heartbeat returns at once without a request or a sleep. *)
Theorem registry_disabled_is_silent
        (upper : string -> string) (env : environ) (g : globals) (net : network)
        (fuel : nat) :
  truthy_opt (EUREKA_SERVER_URL g) = false ->
  on_startup g = []
  /\ run (_eureka_register_instance upper env g) net = (Ok tt, [])
  /\ run (_eureka_heartbeat_loop upper g fuel) net = (Ok (Some tt), []).
Proof.
  intros Hurl.
  unfold on_startup, _start_eureka_background, run, _eureka_register_instance,
    _eureka_heartbeat_loop.
  rewrite Hurl. repeat split.
Qed.

Lemma registry_disabled_is_silent_witness :
  on_startup no_registry_globals = []
  /\ run (_eureka_heartbeat_loop ascii_upper no_registry_globals 10) flaky = (Ok (Some tt), []).
Proof.
  pose proof (registry_disabled_is_silent ascii_upper example_environ no_registry_globals
                flaky 10 eq_refl) as (A & _ & B).
  split; assumption.
Defined.

(** X9.  The registry URL is taken from
    [EUREKA_CLIENT_SERVICE_URL_DEFAULTZONE] whenever that variable is set,
    even to the empty string: [EUREKA_SERVER_URL] is then not consulted, and
    an empty value switches the client off.  Only when the first variable
    is unset does the second decide. *)
Theorem defaultzone_shadows_server_url (env : environ) (port : Z) :
  match env "EUREKA_CLIENT_SERVICE_URL_DEFAULTZONE" with
  | Some v =>
      EUREKA_SERVER_URL (module_globals env port) = Some v
      /\ on_startup (module_globals env port)
         = (if String.eqb v EmptyString then []
            else [T_register_instance; T_heartbeat_loop])
  | None =>
      EUREKA_SERVER_URL (module_globals env port) = env "EUREKA_SERVER_URL"
      /\ on_startup (module_globals env port)
         = (if truthy_opt (env "EUREKA_SERVER_URL")
            then [T_register_instance; T_heartbeat_loop] else [])
  end.
Proof.
  unfold on_startup, _start_eureka_background. simpl.
  destruct (env "EUREKA_CLIENT_SERVICE_URL_DEFAULTZONE") as [v|].
  - split; [reflexivity|]. unfold truthy_opt. simpl. now destruct (String.eqb v EmptyString).
  - split; [reflexivity|]. now destruct (truthy_opt (env "EUREKA_SERVER_URL")).
Qed.

(** X10.  What the registration advertises is what the service serves and
    answers: the health-check and status-page URLs are [http://host:port]
    followed by the paths of the GET routes of [health] and [info], the
    status is the one [health] reports, the VIP address is the app name
    [info] reports, and host and port are those of the globals. *)
Theorem registration_advertises_served_endpoints
        (upper : string -> string) (env : environ) (g : globals) (net : network) :
  truthy_opt (EUREKA_SERVER_URL g) = true ->
  exists (r : request) (instance : list (string * value)) (health_path info_path : string),
    snd (run (_eureka_register_instance upper env g) net) = [EvRequest r]
    /\ req_json r = Some (PDict [("instance", PDict instance)])
    /\ In (GET, health_path, H_health) routes
    /\ In (GET, info_path, H_info) routes
    /\ dict_get instance "healthCheckUrl"
       = PStr ("http://" ++ (SERVICE_HOSTNAME g ++ ":" ++ of_Z (SERVICE_PORT g)) ++ health_path)
    /\ dict_get instance "statusPageUrl"
       = PStr ("http://" ++ (SERVICE_HOSTNAME g ++ ":" ++ of_Z (SERVICE_PORT g)) ++ info_path)
    /\ health = PDict [("status", dict_get instance "status")]
    /\ info g = PDict [("app", dict_get instance "vipAddress"); ("version", PStr "1.0.0")]
    /\ dict_get instance "hostName" = PStr (SERVICE_HOSTNAME g)
    /\ dict_get instance "port"
       = PDict [("$", PInt (SERVICE_PORT g)); ("@enabled", PBool true)].
Proof.
  intros Hurl.
  destruct (register_run upper env g Hurl)
    as (i & R & Hh & Ha & Hv & Hs & Hp & Hc & Hi).
  eexists. exists i, "/actuator/health", "/actuator/info".
  rewrite R. simpl snd. split; [reflexivity|]. simpl req_json.
  rewrite Hc, Hi, Hs, Hv, Hh, Hp. unfold health, info, routes. simpl.
  repeat split; auto.
Qed.

Lemma registration_advertises_served_endpoints_witness :
  exists instance : list (string * value),
    snd (run (_eureka_register_instance ascii_upper example_environ example_globals) flaky)
    = [EvRequest
         (Request POST "http://eureka:8761/eureka/apps/CHATBOT-SERVICE"
            (Some (PDict [("instance", PDict instance)]))
            [("Content-Type", "application/json")] 5)]
    /\ dict_get instance "healthCheckUrl" = PStr "http://localhost:8085/actuator/health".
Proof.
  destruct (registration_advertises_served_endpoints ascii_upper example_environ
              example_globals flaky eq_refl) as (r & i & hp & ip & _).
  eexists. split; reflexivity.
Defined.

(** ** The chat endpoint *)

Module ChatFacts.

Lemma new_ChatResponse_str (coerce : value -> exn + string) (s : string)
      (net : network) (log : list event) :
  new_ChatResponse coerce (PStr s) net log = (Ok {| response := s |}, log).
Proof. reflexivity. Qed.

Lemma new_ChatResponse_log (coerce : value -> exn + string) (v : value)
      (net : network) (log : list event) :
  snd (new_ChatResponse coerce v net log) = log.
Proof. destruct v; simpl; try destruct (coerce _); reflexivity. Qed.

(** The endpoint, by the intent of the message. *)
Lemma chat_run (coerce : value -> exn + string) (g : globals) (req : ChatRequest)
      (net : network) :
  run (chat coerce g req) net
  = if String.eqb (detect_intent (message req)) "greeting" then
      (Ok {| response := greeting_reply |}, [])
    else if String.eqb (detect_intent (message req)) "book_appointment" then
      match run (book_appointment_via_api g (message req)) net with
      | (Ok v, log) => new_ChatResponse coerce v net log
      | (Raise e, log) => (Raise e, log)
      end
    else if String.eqb (detect_intent (message req)) "fetch_appointments" then
      match run (fetch_appointments_via_api g) net with
      | (Ok v, log) => new_ChatResponse coerce v net log
      | (Raise e, log) => (Raise e, log)
      end
    else (Ok {| response := unknown_reply |}, []).
Proof.
  unfold run, chat.
  destruct (String.eqb (detect_intent (message req)) "greeting"); [reflexivity|].
  destruct (String.eqb (detect_intent (message req)) "book_appointment"); [reflexivity|].
  destruct (String.eqb (detect_intent (message req)) "fetch_appointments"); reflexivity.
Qed.

End ChatFacts.

Import ChatFacts.

(** X11.  A message in which a greeting word occurs anywhere is answered
    with the greeting and without any call to the appointment service, even
    when it also asks for a booking or for the list. *)
Theorem chat_greets_without_downstream
        (coerce : value -> exn + string) (g : globals) (net : network)
        (a w b : string) :
  In (lower w) ["hi"; "hello"; "hey"] ->
  run (chat coerce g {| message := a ++ w ++ b |}) net
  = (Ok {| response := "Hello! How can I help you today?" |}, []).
Proof.
  intros Hw. rewrite chat_run. simpl message.
  now rewrite (greeting_rule_decides _ (greeting_anywhere a w b Hw)).
Qed.

Lemma chat_greets_without_downstream_witness :
  run (chat strict_str example_globals
         {| message := "show my appointments for t" ++ "hi" ++ "s week" |}) unreachable
  = (Ok {| response := "Hello! How can I help you today?" |}, []).
Proof. apply chat_greets_without_downstream. simpl. auto. Defined.

(** X12.  The endpoint sends at most one request: the booking POST for a
    booking intent, the listing GET for a listing intent, nothing
    otherwise.  It always answers with a response, with the one exception
    that a booking which succeeded with a [message] that is not a string
    leaves the answer to pydantic's validation of the [response] field. *)
Theorem chat_is_fail_open
        (coerce : value -> exn + string) (g : globals) (req : ChatRequest)
        (net : network) :
  snd (run (chat coerce g req) net)
  = (if String.eqb (detect_intent (message req)) "book_appointment"
     then [EvRequest (book_request g (message req))]
     else if String.eqb (detect_intent (message req)) "fetch_appointments"
          then [EvRequest (fetch_request g)]
          else [])
  /\ ((exists s : string, fst (run (chat coerce g req) net) = Ok {| response := s |})
      \/ (detect_intent (message req) = "book_appointment"
          /\ exists (st : Z) (d : list (string * value)),
              net 0 (book_request g (message req))
              = Responds (Response st (inr (PDict d)))
              /\ (st < 400)%Z
              /\ truthy (dict_get d "message") = true
              /\ is_str (dict_get d "message") = false
              /\ fst (run (chat coerce g req) net)
                 = match coerce (dict_get d "message") with
                   | inr s => Ok {| response := s |}
                   | inl e => Raise e
                   end)).
Proof.
  rewrite chat_run.
  destruct (String.eqb_spec (detect_intent (message req)) "greeting") as [G|G].
  - rewrite G. simpl. split; [reflexivity | left; eauto].
  - destruct (String.eqb_spec (detect_intent (message req)) "book_appointment") as [B|B].
    + destruct (book_returns g (message req) net) as (v & -> & [S|(st & d & H & Hst & T & ->)]).
      * destruct v; try discriminate S. simpl. split; [reflexivity | left; eauto].
      * split; [apply new_ChatResponse_log|].
        destruct (is_str (dict_get d "message")) eqn:S.
        -- destruct (dict_get d "message"); try discriminate S. left. simpl. eauto.
        -- right. split; [exact B|]. exists st, d. repeat split; auto.
           destruct (dict_get d "message"); try discriminate S; simpl;
             destruct (coerce _); reflexivity.
    + destruct (String.eqb_spec (detect_intent (message req)) "fetch_appointments") as [F|F].
      * destruct (fetch_returns g net) as (s & ->). simpl.
        split; [reflexivity | left; eauto].
      * simpl. split; [reflexivity | left; eauto].
Qed.

(** X13.  A message that is empty or made of white space only is
    classified [unknown], and the endpoint answers it without any call
    downstream. *)
Theorem blank_message_is_unknown
        (coerce : value -> exn + string) (g : globals) (net : network) (s : string) :
  all_chars isspace s = true ->
  detect_intent s = "unknown"
  /\ run (chat coerce g {| message := s |}) net
     = (Ok {| response := "I'm not sure how to help with that yet." |}, []).
Proof.
  intros Hs.
  assert (D : detect_intent s = "unknown").
  { unfold detect_intent, strip. now rewrite (PyStrFacts.lstrip_all isspace s Hs). }
  split; [exact D|]. rewrite chat_run. simpl message. now rewrite D.
Qed.

Lemma blank_message_is_unknown_witness :
  detect_intent ("  " ++ nl) = "unknown"
  /\ run (chat strict_str example_globals {| message := "  " ++ nl |}) unreachable
     = (Ok {| response := "I'm not sure how to help with that yet." |}, []).
Proof. apply blank_message_is_unknown. reflexivity. Defined.

(** ** Entity extraction, beyond the claims *)

Module ExtractFacts.

Import Re ReFacts ShapeFacts IntentFacts.

Lemma cat_lit (icase : bool) (c d : ascii) (r : regex) (p : option ascii) (w t : string)
      (g g' : list (nat * string)) :
  lit_eq icase c d = true -> matches icase r (Some d) w t g g' ->
  matches icase (Cat (Lit c) r) p (String d w) t g g'.
Proof.
  intros E M. change (String d w) with (String d EmptyString ++ w).
  econstructor; [now constructor | exact M].
Qed.

Lemma cat_set (icase : bool) (cs : cset) (d : ascii) (r : regex) (p : option ascii)
      (w t : string) (g g' : list (nat * string)) :
  cset_mem cs d = true -> matches icase r (Some d) w t g g' ->
  matches icase (Cat (Set_ cs) r) p (String d w) t g g'.
Proof.
  intros E M. change (String d w) with (String d EmptyString ++ w).
  econstructor; [now constructor | exact M].
Qed.

(** A literal word matches, case ignored, whatever lower-cases to it. *)
Lemma str_matches_icase (s : string) :
  forall (p : option ascii) (w t : string) (g : list (nat * string)),
    lower w = lower s -> matches true (str s) p w t g g.
Proof.
  induction s as [|c s IH]; intros p w t g H.
  - destruct w; [constructor | discriminate H].
  - destruct w as [|d w]; [discriminate H|]. simpl in H. injection H as Hc Hw.
    destruct s as [|c' s].
    + destruct w; [|discriminate Hw]. constructor. unfold lit_eq. now apply Ascii.eqb_eq.
    + change (str (String c (String c' s))) with (Cat (Lit c) (str (String c' s))).
      apply cat_lit; [unfold lit_eq; now apply Ascii.eqb_eq | now apply IH].
Qed.

Lemma plus_matches (icase : bool) (cs : cset) (p : option ascii) (w t : string)
      (g : list (nat * string)) :
  0 < String.length w -> all_chars (cset_mem cs) w = true ->
  matches icase (plus cs) p w t g g.
Proof.
  intros Hl Hw. destruct w as [|d w]; [simpl in Hl; lia|].
  simpl in Hw. apply andb_prop in Hw as [Hd Hw].
  apply cat_set; [exact Hd | now constructor].
Qed.

Lemma date_token_matches (p : option ascii) (d t : string) (g : list (nat * string)) :
  date_token d ->
  at_boundary p (d ++ t) = true -> at_boundary (prev_after p d) t = true ->
  matches true re_date p d t g ((1, d) :: g).
Proof.
  intros T B1 B2. unfold re_date. simpl seq.
  replace d with (EmptyString ++ d ++ EmptyString) at 1 by (simpl; apply append_nil_r).
  eapply MCat; [constructor; simpl; now rewrite append_nil_r|].
  rewrite prev_after_nil.
  eapply MCat; [|constructor; exact B2].
  constructor. simpl append.
  destruct T as [T|[T|T]].
  - apply MAltL. now apply (str_matches_icase "today").
  - apply MAltR, MAltL. now apply (str_matches_icase "tomorrow").
  - apply MAltR, MAltR.
    unfold is_iso_date in T.
    destruct d as [|c0 [|c1 [|c2 [|c3 [|h1 [|c4 [|c5 [|h2 [|c6 [|c7 [|]]]]]]]]]]];
      try (exfalso; cbn [shaped] in T; repeat (apply andb_prop in T as [_ T]);
           discriminate T).
    cbn [shaped] in T.
    repeat match goal with
           | H : _ && _ = true |- _ => apply andb_prop in H as [? H]
           end.
    repeat match goal with
           | H : Ascii.eqb "-" _ = true |- _ => apply Ascii.eqb_eq in H; subst
           end.
    change (String c0 (String c1 (String c2 (String c3 (String "-"
              (String c4 (String c5 (String "-" (String c6 (String c7 EmptyString))))))))))
      with (String c0 (String c1 (String c2 (String c3 EmptyString)))
            ++ String "-" EmptyString
            ++ String c4 (String c5 EmptyString)
            ++ String "-" EmptyString
            ++ String c6 (String c7 EmptyString)).
    simpl seq. simpl rep.
    eapply MCat; [repeat (apply cat_set; [assumption|]); now constructor|].
    eapply MCat; [now constructor|].
    eapply MCat; [repeat (apply cat_set; [assumption|]); now constructor|].
    eapply MCat; [now constructor|].
    repeat (apply cat_set; [assumption|]); now constructor.
Qed.

Lemma doctor_phrase_matches (p : option ascii) (intro name t : string)
      (g : list (nat * string)) :
  doctor_intro intro -> 0 < String.length name -> all_chars isasciialpha name = true ->
  matches true re_doctor p (intro ++ name) t g ((1, name) :: g).
Proof.
  intros (kw & sp1 & dr & dot & sp2 & -> & Hkw & Hdr & Hdot & Hs1 & Hl1 & Hs2 & Hl2) Hl Hn.
  unfold re_doctor. simpl seq. rewrite !append_assoc.
  eapply MCat; [now apply (str_matches_icase "with")|].
  eapply MCat; [now apply plus_matches|].
  eapply MCat; [now apply (str_matches_icase "dr")|].
  eapply MCat.
  { destruct Hdot as [-> | ->]; [apply MAltR; constructor | apply MAltL; now constructor]. }
  eapply MCat; [now apply plus_matches|].
  constructor. apply plus_matches; [exact Hl|].
  now rewrite (all_chars_ext _ _ name letters_mem).
Qed.

End ExtractFacts.

Import ExtractFacts.

(** X14.  For a message of Latin-1 characters, the booking payload
    carries a date exactly when the message holds a date token: [today] or
    [tomorrow] in any case, or four ASCII digits, a dash, two digits, a dash
    and two digits, standing between word boundaries.  A token glued to a
    letter, digit or underscore is not one.  (Beyond Latin-1 the pattern
    takes other decimal digits as well.) *)
Theorem date_is_extracted_exactly (message : string) :
  (exists d : string, group1 (Re.search true re_date message) = Some d)
  <-> has_date_token message.
Proof.
  pose proof (date_extraction message) as D. split.
  - intros [d E]. rewrite E in D.
    destruct D as (pre & post & -> & T & B1 & B2 & _).
    exists pre, d, post. rewrite <- prev_after_last. auto.
  - intros (pre & d & post & -> & T & B1 & B2).
    destruct (group1 (Re.search true re_date (pre ++ d ++ post))) as [d'|]; [eauto|].
    exfalso. apply (D pre d [(1, d)]). exists post. split; [reflexivity|].
    apply date_token_matches; [exact T | exact B1 | now rewrite prev_after_last].
Qed.

Lemma date_is_extracted_exactly_witness :
  (exists d : string,
      group1 (Re.search true re_date "see you TODAY, with dr x") = Some d)
  /\ group1 (Re.search true re_date "book for tomorrowx or 12024-05-01") = None.
Proof.
  split; [|reflexivity].
  apply (proj2 (date_is_extracted_exactly "see you TODAY, with dr x")).
  exists "see you ", "TODAY", ", with dr x".
  repeat split. now left.
Defined.

(** X15.  For a message of Latin-1 characters, the booking payload
    carries a doctor's name exactly when the message holds [with], white
    space, [dr], an optional full stop, white space and at least one ASCII
    letter, in any case.  (Beyond Latin-1 the pattern takes a few more
    characters for letters: see [letters].) *)
Theorem doctor_is_extracted_exactly (message : string) :
  (exists name : string, group1 (Re.search true re_doctor message) = Some name)
  <-> names_doctor message.
Proof.
  pose proof (doctor_extraction message) as D. split.
  - intros [name E]. rewrite E in D.
    destruct D as (pre & intro & post & -> & I & Hl & Hn & _).
    exists pre, intro, name, post. auto.
  - intros (pre & intro & name & post & -> & I & Hl & Hn).
    destruct (group1 (Re.search true re_doctor (pre ++ intro ++ name ++ post)))
      as [name'|]; [eauto|].
    exfalso. apply (D pre (intro ++ name) [(1, name)]). exists post.
    split; [now rewrite ReFacts.append_assoc|].
    now apply doctor_phrase_matches.
Qed.

Lemma doctor_is_extracted_exactly_witness :
  (exists name : string,
      group1 (Re.search true re_doctor "Book WITH  Dr Lee-Wong tomorrow") = Some name)
  /\ group1 (Re.search true re_doctor "book with doctor Lee") = None.
Proof.
  split; [|reflexivity].
  apply (proj2 (doctor_is_extracted_exactly "Book WITH  Dr Lee-Wong tomorrow")).
  exists "Book ", "WITH  Dr ", "Lee", "-Wong tomorrow".
  split; [reflexivity|]. split; [|split; [simpl; lia | reflexivity]].
  exists "WITH", "  ", "Dr", EmptyString, " ".
  repeat split; simpl; auto; lia.
Defined.

(** * The booking call: what it sends and what it returns *)

(** ** What the booking call sends *)

Module PayloadFacts.

Import Re ReFacts ShapeFacts IntentFacts.




End PayloadFacts.

Import PayloadFacts.


(** ** A reply that is not a string *)

(** C1.  The claim fails on one class of answers.  When the appointment
    service answers the booking with a status below 400 and a JSON object
    whose [message] is truthy and not a string (a number, a list, an
    object), [book_appointment_via_api], declared [-> str], returns that
    value as it is.  The endpoint hands it to [ChatResponse], whose
    [response] field is declared [str]: what comes of a booking message then
    is what pydantic makes of the value, a validation error where it refuses
    to convert. *)
Theorem book_returns_message_that_is_no_string
        (g : globals) (msg : string) (net : network)
        (st : Z) (d : list (string * value)) :
  net 0 (book_request g msg) = Responds (Response st (inr (PDict d))) ->
  (st < 400)%Z ->
  truthy (dict_get d "message") = true ->
  is_str (dict_get d "message") = false ->
  run (book_appointment_via_api g msg) net
  = (Ok (dict_get d "message"), [EvRequest (book_request g msg)])
  /\ (detect_intent msg = "book_appointment" ->
      forall coerce : value -> exn + string,
        fst (run (chat coerce g {| message := msg |}) net)
        = match coerce (dict_get d "message") with
          | inr s => Ok {| response := s |}
          | inl e => Raise e
          end).
Proof.
  intros H Hst T S.
  assert (B : run (book_appointment_via_api g msg) net
              = (Ok (dict_get d "message"), [EvRequest (book_request g msg)])).
  { rewrite (book_object g msg net st d H Hst). unfold or_. now rewrite T. }
  split; [exact B|].
  intros I coerce. rewrite chat_run. cbn [message]. rewrite I, B. simpl.
  destruct (dict_get d "message"); try discriminate S; simpl;
    destruct (coerce _); reflexivity.
Qed.

Lemma book_returns_message_that_is_no_string_witness :
  run (book_appointment_via_api example_globals "book an appointment")
      (answers 200 numeric_message)
  = (Ok (PInt 5), [EvRequest (book_request example_globals "book an appointment")])
  /\ is_str (PInt 5) = false
  /\ fst (run (chat strict_str example_globals {| message := "book an appointment" |})
              (answers 200 numeric_message))
     = Raise (Exn "ValidationError" "Input should be a valid string").
Proof.
  pose proof (book_returns_message_that_is_no_string
                example_globals "book an appointment" (answers 200 numeric_message)
                200 [("message", PInt 5)] eq_refl ltac:(lia) eq_refl eq_refl) as (B & C).
  split; [exact B|]. split; [reflexivity|].
  exact (C eq_refl strict_str).
Defined.
